(** * PASR: pixel-replication upscaling pipeline (pasr_v1.py, pasr_v2b.py)

    A shallow embedding of the two Python scripts and the properties of
    their scaling, path-resolution and file-processing code.

    Modelling conventions
    - Python [str] values are lists of 8-bit characters ([pystr]).
    - A numpy array is a flat row-major buffer together with its shape and
      element type ([ndarray]); samples are integers.
    - I/O (codecs, [print], the directory listing) acts on an explicit
      [world]; exceptions are values of an error monad.
    - [os.path] is the POSIX flavour ([posixpath]). *)

From Stdlib Require Import String Ascii List Arith Lia ZArith Bool.
From Stdlib Require Import Numbers.DecimalString.
Import ListNotations.

Set Implicit Arguments.

(* ================================================================== *)
(** * Python strings *)
(* ================================================================== *)

Definition pystr := list ascii.

(** String literals of the source. *)
Definition str (s : string) : pystr := list_ascii_of_string s.

Definition pystr_eqb (a b : pystr) : bool :=
  if list_eq_dec ascii_dec a b then true else false.

Definition ch_dot : ascii := "."%char.
Definition ch_sep : ascii := "/"%char.

(** [s.endswith(suffix)] *)
Definition endswith (s suffix : pystr) : bool :=
  pystr_eqb (skipn (length s - length suffix) s) suffix
  && (length suffix <=? length s).

(** [s.startswith(prefix)] *)
Definition startswith (s prefix : pystr) : bool :=
  pystr_eqb (firstn (length prefix) s) prefix.

(** [s.endswith((a, b, ...))] with a tuple of suffixes *)
Definition endswith_any (s : pystr) (suffixes : list pystr) : bool :=
  existsb (endswith s) suffixes.

(** [c.lower()] on the ASCII range: only 'A'..'Z' change. *)
Definition lower_char (c : ascii) : ascii :=
  let n := nat_of_ascii c in
  if (65 <=? n) && (n <=? 90) then ascii_of_nat (n + 32) else c.

(** [s.lower()] *)
Definition lower (s : pystr) : pystr := map lower_char s.

(** [s.rfind(c)] for a one-character needle: the highest index of [c], or
    [-1] when [c] does not occur. *)
Fixpoint rfind_from (c : ascii) (s : pystr) (i : nat) (found : Z) : Z :=
  match s with
  | [] => found
  | a :: t =>
      rfind_from c t (S i) (if Ascii.eqb a c then Z.of_nat i else found)
  end.

Definition rfind (c : ascii) (s : pystr) : Z := rfind_from c s 0 (-1)%Z.

(** [f"{n}"] for a non-negative integer. *)
Definition str_of_int (n : nat) : pystr :=
  str (NilZero.string_of_uint (Nat.to_uint n)).

(* ================================================================== *)
(** * os.path (posixpath) *)
(* ================================================================== *)

(** The loop of [genericpath._splitext] that skips leading dots: starting
    at [filenameIndex], it looks at [n = dotIndex - filenameIndex]
    characters and answers whether one of them is not a dot. *)
Fixpoint has_non_dot_before (p : pystr) (filenameIndex n : nat) : bool :=
  match n with
  | 0 => false
  | S n' =>
      if negb (Ascii.eqb (nth filenameIndex p ch_dot) ch_dot) then true
      else has_non_dot_before p (S filenameIndex) n'
  end.

(** [os.path.splitext(p)] *)
Definition splitext (p : pystr) : pystr * pystr :=
  let sepIndex := rfind ch_sep p in
  let dotIndex := rfind ch_dot p in
  if (dotIndex >? sepIndex)%Z then
    let filenameIndex := Z.to_nat (sepIndex + 1) in
    if has_non_dot_before p filenameIndex (Z.to_nat dotIndex - filenameIndex)
    then (firstn (Z.to_nat dotIndex) p, skipn (Z.to_nat dotIndex) p)
    else (p, [])
  else (p, []).

(** [os.path.basename(p)] *)
Definition basename (p : pystr) : pystr :=
  skipn (Z.to_nat (rfind ch_sep p + 1)) p.

(** [os.path.join(a, b)] with two arguments *)
Definition path_join (a b : pystr) : pystr :=
  if startswith b [ch_sep] then b
  else if (length a =? 0) || endswith a [ch_sep] then a ++ b
  else a ++ [ch_sep] ++ b.

(* ================================================================== *)
(** * Exceptions *)
(* ================================================================== *)

(** Text for the terminal: [termcolor.colored(text, color)] is the text
    tagged with its colour, [plain] is text printed as it is. *)
Inductive message :=
| colored (text color : pystr)
| plain (text : pystr).

Inductive exn :=
| ValueError (m : message)      (* raised by the scripts and by Pool *)
| IndexError                    (* index or tuple index out of range *)
| AxisError                     (* numpy: axis out of bounds *)
| BroadcastError                (* numpy: shapes do not match on assignment *)
| DecodeError (path : pystr).   (* the codec could not open or read the file *)

Inductive res (A : Type) :=
| Ok (a : A)
| Raise (e : exn).
Arguments Ok {A} a.
Arguments Raise {A} e.

Definition res_bind {A B} (r : res A) (k : A -> res B) : res B :=
  match r with
  | Ok a => k a
  | Raise e => Raise e
  end.

Declare Scope res_scope.
Delimit Scope res_scope with res.
Notation "x <- r ;; k" := (res_bind r (fun x => k))
  (at level 61, r at next level, right associativity) : res_scope.

(* ================================================================== *)
(** * numpy arrays *)
(* ================================================================== *)

Inductive dtype := UInt8 | Int8 | UInt16 | Int16 | Float32.

Record ndarray := mk_ndarray {
  arr_dtype : dtype;
  arr_shape : list nat;
  arr_data : list Z            (* row-major *)
}.

Definition prod_shape (s : list nat) : nat := fold_right Nat.mul 1 s.

Definition ndim (a : ndarray) : nat := length (arr_shape a).

(** Every array numpy hands out holds as many samples as its shape says. *)
Definition well_formed (a : ndarray) : Prop :=
  length (arr_data a) = prod_shape (arr_shape a).

(** The [i]-th block of [m] consecutive samples. *)
Definition chunk (m : nat) (l : list Z) (i : nat) : list Z :=
  firstn m (skipn (i * m) l).

(** The first [n] blocks of [m] samples. *)
Definition chunks (m n : nat) (l : list Z) : list (list Z) :=
  map (chunk m l) (seq 0 n).

(** [shape[:axis] + (d,) + shape[axis+1:]] *)
Fixpoint set_dim (s : list nat) (axis d : nat) : list nat :=
  match s, axis with
  | [], _ => []
  | _ :: t, 0 => d :: t
  | h :: t, S k => h :: set_dim t k d
  end.

(** [np.repeat(a, repeats, axis=axis)]: along [axis], every sub-array is
    repeated [repeats] times in place.  In the flat buffer the sub-arrays
    of that axis are the blocks of [prod shape[axis+1:]] samples. *)
Definition np_repeat (a : ndarray) (repeats axis : nat) : res ndarray :=
  match nth_error (arr_shape a) axis with
  | None => Raise AxisError
  | Some d =>
      let inner := prod_shape (skipn (S axis) (arr_shape a)) in
      let count := prod_shape (firstn (S axis) (arr_shape a)) in
      Ok {| arr_dtype := arr_dtype a;
            arr_shape := set_dim (arr_shape a) axis (d * repeats);
            arr_data :=
              concat (flat_map (fun c => repeat c repeats)
                               (chunks inner count (arr_data a))) |}
  end.

(** [np.flip(a, axis=0)] *)
Definition np_flip0 (a : ndarray) : res ndarray :=
  match arr_shape a with
  | [] => Raise AxisError
  | d :: rest =>
      Ok {| arr_dtype := arr_dtype a;
            arr_shape := arr_shape a;
            arr_data := concat (List.rev (chunks (prod_shape rest) d (arr_data a))) |}
  end.

(** [np.empty(shape, dtype=dtype)]; the unspecified initial samples are
    taken to be zero. *)
Definition np_empty (shape : list nat) (dt : dtype) : ndarray :=
  {| arr_dtype := dt; arr_shape := shape;
     arr_data := repeat 0%Z (prod_shape shape) |}.

(** [a[i]] for an integer [i >= 0] *)
Definition getitem (a : ndarray) (i : nat) : res ndarray :=
  match arr_shape a with
  | [] => Raise IndexError
  | d :: rest =>
      if i <? d then
        Ok {| arr_dtype := arr_dtype a;
              arr_shape := rest;
              arr_data := chunk (prod_shape rest) (arr_data a) i |}
      else Raise IndexError
  end.

(** [a[i] = v].  numpy also accepts values whose shape merely broadcasts
    to that of [a[i]]; the scripts only assign frames of the exact shape,
    and any other shape is rejected here. *)
Definition setitem (a : ndarray) (i : nat) (v : ndarray) : res ndarray :=
  match arr_shape a with
  | [] => Raise IndexError
  | d :: rest =>
      if i <? d then
        if list_eq_dec Nat.eq_dec (arr_shape v) rest then
          let m := prod_shape rest in
          Ok {| arr_dtype := arr_dtype a;
                arr_shape := arr_shape a;
                arr_data := firstn (i * m) (arr_data a) ++ arr_data v
                            ++ skipn (S i * m) (arr_data a) |}
        else Raise BroadcastError
      else Raise IndexError
  end.

(** [a.astype(np.uint8)]: integer samples wrap modulo 256. *)
Definition astype_uint8 (a : ndarray) : ndarray :=
  {| arr_dtype := UInt8; arr_shape := arr_shape a;
     arr_data := map (fun x => (x mod 256)%Z) (arr_data a) |}.

(** [a.shape[k]] *)
Definition shape_at (a : ndarray) (k : nat) : res nat :=
  match nth_error (arr_shape a) k with
  | Some d => Ok d
  | None => Raise IndexError
  end.

(** Reading one sample: [a[y, x]] and [a[i, y, x]]. *)
Definition pixel2 (a : ndarray) (y x : nat) : option Z :=
  match arr_shape a with
  | [h; w] =>
      if (y <? h) && (x <? w) then nth_error (arr_data a) (y * w + x)
      else None
  | _ => None
  end.

Definition pixel3 (a : ndarray) (i y x : nat) : option Z :=
  match arr_shape a with
  | [n; h; w] =>
      if (i <? n) && (y <? h) && (x <? w)
      then nth_error (arr_data a) (i * (h * w) + y * w + x)
      else None
  | _ => None
  end.

(* ================================================================== *)
(** * The array scaler *)
(* ================================================================== *)

Open Scope res_scope.

(** [scale_image(image, scale)] of version 2:
    [np.repeat(np.repeat(image, scale, axis=1), scale, axis=0)]. *)
Definition scale_image (image : ndarray) (scale : nat) : res ndarray :=
  inner <- np_repeat image scale 1 ;;
  np_repeat inner scale 0.

(** [for i in range(n): processed_data[i] = scale_image(original_data[i], scale)],
    started at [i]. *)
Fixpoint scale_frames (original_data processed_data : ndarray)
         (scale i n : nat) : res ndarray :=
  match n with
  | 0 => Ok processed_data
  | S n' =>
      frame <- getitem original_data i ;;
      scaled <- scale_image frame scale ;;
      processed_data' <- setitem processed_data i scaled ;;
      scale_frames original_data processed_data' scale (S i) n'
  end.

(** The [ndim == 3] branch of [process_file]. *)
Definition scale_stack (original_data : ndarray) (scale : nat) : res ndarray :=
  d0 <- shape_at original_data 0 ;;
  d1 <- shape_at original_data 1 ;;
  d2 <- shape_at original_data 2 ;;
  let processed_data :=
    np_empty [d0; d1 * scale; d2 * scale] (arr_dtype original_data) in
  scale_frames original_data processed_data scale 0 d0.

Definition err_dims : message :=
  colored (str "Unsupported data dimensions. Only 2D images and 2D frame stacks are supported.")
          (str "red").

(** The "Scaling the image" step of [process_file] (version 2). *)
Definition scale_data (original_data : ndarray) (scale : nat) : res ndarray :=
  if ndim original_data =? 3 then scale_stack original_data scale
  else if ndim original_data =? 2 then scale_image original_data scale
  else Raise (ValueError err_dims).

Close Scope res_scope.

(* ================================================================== *)
(** * The outside world: files, codecs, terminal *)
(* ================================================================== *)

Inductive io_event :=
| EvMrcOpen (path : pystr)                       (* mrcfile.open *)
| EvImread (path : pystr)                        (* tifffile.imread *)
| EvMrcWrite (path : pystr) (a : ndarray)        (* mrcfile.new + set_data *)
| EvImwrite (path : pystr) (a : ndarray) (compression : pystr)
| EvImageSave (path : pystr) (a : ndarray)       (* PIL Image.save *)
| EvMakedirs (path : pystr)
| EvPrint (m : message).

Record world := mk_world {
  files : pystr -> option ndarray;   (* what a codec decodes from a path *)
  globbed : pystr -> list pystr;     (* glob.glob(pattern) *)
  exists_path : pystr -> bool;       (* os.path.exists *)
  log : list io_event                (* effects so far, oldest first *)
}.

Definition M (A : Type) : Type := world -> res A * world.

Definition ret {A} (a : A) : M A := fun w => (Ok a, w).
Definition raise {A} (e : exn) : M A := fun w => (Raise e, w).
Definition bind {A B} (m : M A) (k : A -> M B) : M B :=
  fun w =>
    match m w with
    | (Ok a, w') => k a w'
    | (Raise e, w') => (Raise e, w')
    end.
Definition lift {A} (r : res A) : M A := fun w => (r, w).

Declare Scope io_scope.
Delimit Scope io_scope with io.
Notation "x <- m ;; k" := (bind m (fun x => k))
  (at level 61, m at next level, right associativity) : io_scope.
Notation "m ;; k" := (bind m (fun _ => k))
  (at level 61, right associativity) : io_scope.
Open Scope io_scope.

Definition emit (e : io_event) : M unit :=
  fun w => (Ok tt, {| files := files w; globbed := globbed w;
                      exists_path := exists_path w; log := log w ++ [e] |}).

Definition store (path : pystr) (a : ndarray) : M unit :=
  fun w => (Ok tt,
            {| files := fun p => if pystr_eqb p path then Some a else files w p;
               globbed := globbed w; exists_path := exists_path w;
               log := log w |}).

Definition load (path : pystr) : M ndarray :=
  fun w => match files w path with
           | Some a => (Ok a, w)
           | None => (Raise (DecodeError path), w)
           end.

(** [with mrcfile.open(path) as mrc: ... mrc.data] *)
Definition mrc_read (path : pystr) : M ndarray :=
  emit (EvMrcOpen path) ;; load path.

(** [imread(path)] *)
Definition imread (path : pystr) : M ndarray :=
  emit (EvImread path) ;; load path.

(** [with mrcfile.new(path, overwrite=True) as mrc: mrc.set_data(a)] *)
Definition mrc_write (path : pystr) (a : ndarray) : M unit :=
  emit (EvMrcWrite path a) ;; store path a.

(** [imwrite(path, a, compression=compression)] *)
Definition imwrite (path : pystr) (a : ndarray) (compression : pystr) : M unit :=
  emit (EvImwrite path a compression) ;; store path a.

(** [Image.fromarray(a).save(path)]; the file is recorded with the array
    that was handed to the encoder. *)
Definition image_save (path : pystr) (a : ndarray) : M unit :=
  emit (EvImageSave path a) ;; store path a.

Definition print (m : message) : M unit := emit (EvPrint m).

(** An event that creates or overwrites a file. *)
Definition is_write (e : io_event) : bool :=
  match e with
  | EvMrcWrite _ _ | EvImwrite _ _ _ | EvImageSave _ _ => true
  | _ => false
  end.

(* ================================================================== *)
(** * Version 2: process_file *)
(* ================================================================== *)

Definition err_input : message :=
  colored (str "Unsupported input file format. Only MRC, TIF and JPG files are supported.")
          (str "red").

Definition err_output : message :=
  colored (str "Unsupported output file format. Only MRC, TIF, and JPG for 2D images are supported.")
          (str "red").

Definition err_jpg_stack : message :=
  colored (str "Error: Cannot save 2D frame stack as JPG.") (str "red").

Definition nl : pystr := [ascii_of_nat 10].

Definition msg_mrc (output_file : pystr) : message :=
  colored (str "PASR pre-processed data written to " ++ output_file
           ++ str ". No compression applied for MRC format (use TIF for compression)."
           ++ nl)
          (str "green").

Definition msg_tif (output_file compression flip_status : pystr) : message :=
  colored (str "PASR pre-processed data written to " ++ output_file
           ++ str " with " ++ compression ++ str " compression. "
           ++ flip_status ++ nl)
          (str "green").

Definition msg_jpg (output_file : pystr) : message :=
  colored (str "PASR pre-processed data written to " ++ output_file ++ nl)
          (str "green").

(** [process_file], "Reading the file" *)
Definition read_input (input_file : pystr) : M ndarray :=
  if endswith input_file (str ".mrc") || endswith input_file (str ".mrcs")
  then mrc_read input_file
  else if endswith input_file (str ".tif")
          || endswith input_file (str ".tiff")
          || endswith input_file (str ".jpg")
  then imread input_file
  else raise (ValueError err_input).

(** [process_file], "Writing the output" *)
Definition write_output (output_file : pystr) (original_data processed_data : ndarray)
           (compression : pystr) (flip_tif : bool) : M unit :=
  if endswith output_file (str ".mrc") || endswith output_file (str ".mrcs")
  then
    mrc_write output_file processed_data ;;
    print (msg_mrc output_file)
  else if endswith output_file (str ".tif") || endswith output_file (str ".tiff")
  then
    flipped <-
      (if flip_tif
       then d <- lift (np_flip0 processed_data) ;;
            ret (d, str "Flipping applied.")
       else ret (processed_data, str "No flipping applied.")) ;;
    imwrite output_file (fst flipped) compression ;;
    print (msg_tif output_file compression (snd flipped))
  else if endswith output_file (str ".jpg")
  then
    if ndim original_data =? 3
    then print err_jpg_stack          (* and [return] *)
    else
      image_save output_file (astype_uint8 processed_data) ;;
      print (msg_jpg output_file)
  else raise (ValueError err_output).

(** [process_file(input_file, output_file, scale, compression, flip_tif)]:
    read, scale, write. *)
Definition process_file (input_file output_file : pystr) (scale : nat)
           (compression : pystr) (flip_tif : bool) : M unit :=
  original_data <- read_input input_file ;;
  processed_data <- lift (scale_data original_data scale) ;;
  write_output output_file original_data processed_data compression flip_tif.

(* ================================================================== *)
(** * Version 1 (pasr_v1.py) *)
(* ================================================================== *)

Module V1.

(** [scale_image(image, scale)] *)
Definition scale_image (image : ndarray) (scale : nat) : res ndarray :=
  res_bind (np_repeat image scale 1) (fun inner => np_repeat inner scale 0).

(** [for i in range(original_data.shape[0]):
       processed_data[i] = scale_image(original_data[i], scale)] *)
Fixpoint scale_frames (original_data processed_data : ndarray)
         (scale i n : nat) : res ndarray :=
  match n with
  | 0 => Ok processed_data
  | S n' =>
      res_bind (getitem original_data i) (fun frame =>
      res_bind (scale_image frame scale) (fun scaled =>
      res_bind (setitem processed_data i scaled) (fun processed_data' =>
      scale_frames original_data processed_data' scale (S i) n')))
  end.

(** "PASR pre-process each frame" *)
Definition scale_stack (original_data : ndarray) (scale : nat) : res ndarray :=
  res_bind (shape_at original_data 0) (fun d0 =>
  res_bind (shape_at original_data 1) (fun d1 =>
  res_bind (shape_at original_data 2) (fun d2 =>
  let processed_data :=
    np_empty [d0; d1 * scale; d2 * scale] (arr_dtype original_data) in
  scale_frames original_data processed_data scale 0 d0))).

Definition err_format : message := plain (str "Unsupported file format").

(** [print('PASR pre-processed data written to', output_file)] *)
Definition msg_written (output_file : pystr) : message :=
  plain (str "PASR pre-processed data written to" ++ str " " ++ output_file).

(** [process_stack(input_file, output_file, scale)] *)
Definition process_stack (input_file output_file : pystr) (scale : nat)
  : M unit :=
  original_data <-
    (if endswith input_file (str ".mrc") || endswith input_file (str ".mrcs")
     then mrc_read input_file
     else if endswith input_file (str ".tif")
             || endswith input_file (str ".tiff")
     then imread input_file
     else raise (ValueError err_format)) ;;
  processed_data <- lift (scale_stack original_data scale) ;;
  (if endswith output_file (str ".mrc") || endswith output_file (str ".mrcs")
   then mrc_write output_file processed_data
   else if endswith output_file (str ".tif")
           || endswith output_file (str ".tiff")
   then imwrite output_file processed_data (str "lzw")
   else raise (ValueError err_format)) ;;
  print (msg_written output_file).

End V1.

(* ================================================================== *)
(** * Version 2: resolving the output path and the flip flag *)
(* ================================================================== *)

(** The [argparse] namespace of version 2. *)
Record args := mk_args {
  a_input : pystr;
  a_scale : nat;
  a_output : option pystr;
  a_compression : pystr;
  a_n_cores : nat;
  a_keep_basename : bool;
  a_flip_tif : option bool;          (* None: --flip_tif not given *)
  a_force_tif : bool;
  a_force_mrc : bool;
  a_force_jpg : bool
}.

(** [f"_PASR_{scale}x"] *)
Definition pasr_suffix (scale : nat) : pystr :=
  str "_PASR_" ++ str_of_int scale ++ str "x".

(** [__main__], single file: "If the output file is not specified, we
    create one with the same name as the input". *)
Definition default_output (a : args) : pystr :=
  match a_output a with
  | Some o => o
  | None =>
      let (base_name, ext) := splitext (a_input a) in
      if a_keep_basename a then base_name ++ ext
      else base_name ++ pasr_suffix (a_scale a) ++ ext
  end.

(** [base_name, ext = os.path.splitext(output); output = f"{base_name}.xxx"] *)
Definition replace_ext (output ext : pystr) : pystr :=
  fst (splitext output) ++ ext.

(** [__main__], single file: "Overwriting file extension if necessary". *)
Definition force_output (a : args) (output : pystr) : pystr :=
  let output := if a_force_tif a then replace_ext output (str ".tif") else output in
  let output := if a_force_mrc a then replace_ext output (str ".mrc") else output in
  let output := if a_force_jpg a then replace_ext output (str ".jpg") else output in
  output.

(** [input.lower().endswith(('.mrc', '.mrcs')) and
     output.lower().endswith(('.tif', '.tiff'))] *)
Definition auto_flip (input_file output_file : pystr) : bool :=
  endswith_any (lower input_file) [str ".mrc"; str ".mrcs"]
  && endswith_any (lower output_file) [str ".tif"; str ".tiff"].

(** [if flip_tif is None: flip_tif = ...] *)
Definition resolve_flip (flip_tif : option bool) (input_file output_file : pystr)
  : bool :=
  match flip_tif with
  | None => auto_flip input_file output_file
  | Some b => b
  end.

(** The argument tuple of one [process_file] call. *)
Record job := mk_job {
  j_input : pystr;
  j_output : pystr;
  j_scale : nat;
  j_compression : pystr;
  j_flip : bool
}.

(** [__main__], single file: the call it prepares for [process_file]. *)
Definition main_job (a : args) : job :=
  let output := force_output a (default_output a) in
  {| j_input := a_input a;
     j_output := output;
     j_scale := a_scale a;
     j_compression := a_compression a;
     j_flip := resolve_flip (a_flip_tif a) (a_input a) output |}.

Definition run_job (j : job) : M unit :=
  process_file (j_input j) (j_output j) (j_scale j) (j_compression j) (j_flip j).

(* ================================================================== *)
(** * Version 2: process_directory *)
(* ================================================================== *)

(** The output path chosen for one directory entry. *)
Definition directory_output (output_dir : pystr) (scale : nat)
           (force_tif force_mrc force_jpg keep_basename : bool)
           (input_file : pystr) : pystr :=
  let (base_name, ext) := splitext (basename input_file) in
  if keep_basename then path_join output_dir (base_name ++ ext)
  else if force_tif then
    path_join output_dir (base_name ++ pasr_suffix scale ++ str ".tif")
  else if force_mrc then
    path_join output_dir (base_name ++ pasr_suffix scale ++ str ".mrc")
  else if force_jpg then
    path_join output_dir (base_name ++ pasr_suffix scale ++ str ".jpg")
  else path_join output_dir (base_name ++ pasr_suffix scale ++ ext).

(** "Creating a list of arguments for multiprocessing": the [for] loop.
    [flip_tif] is the function's own parameter, assigned inside the loop,
    so its value is carried from one iteration to the next. *)
Fixpoint build_arguments (file_list : list pystr) (output_dir : pystr)
         (scale : nat) (compression : pystr) (flip_tif : option bool)
         (force_tif force_mrc force_jpg keep_basename : bool) : list job :=
  match file_list with
  | [] => []
  | input_file :: rest =>
      let output_file :=
        directory_output output_dir scale force_tif force_mrc force_jpg
                         keep_basename input_file in
      let flip := resolve_flip flip_tif input_file output_file in
      mk_job input_file output_file scale compression flip
      :: build_arguments rest output_dir scale compression (Some flip)
                         force_tif force_mrc force_jpg keep_basename
  end.

(** One worker task, [mapstar]: the jobs of a chunk run in order and the
    first exception ends the chunk. *)
Fixpoint mapstar (chunk_jobs : list job) : M unit :=
  match chunk_jobs with
  | [] => ret tt
  | j :: rest => run_job j ;; mapstar rest
  end.

(** [Pool._get_tasks]: consecutive slices of [size] jobs. *)
Definition get_tasks (size : nat) (jobs : list job) : list (list job) :=
  match size with
  | 0 => []
  | _ =>
      map (fun k => firstn size (skipn (k * size) jobs))
          (seq 0 ((length jobs + size - 1) / size))
  end.

(** Every chunk is run; the first exception met is kept for the caller. *)
Fixpoint run_tasks (tasks : list (list job)) (failed : option exn)
  : M (option exn) :=
  match tasks with
  | [] => ret failed
  | t :: rest =>
      fun w =>
        match mapstar t w with
        | (Ok _, w') => run_tasks rest failed w'
        | (Raise e, w') =>
            run_tasks rest (match failed with Some _ => failed | None => Some e end) w'
        end
  end.

Definition err_pool : message :=
  plain (str "Number of processes must be at least 1").

(** [with Pool(n_cores) as p: p.starmap(process_file, arguments)].  The
    chunk size is the one [Pool.starmap] computes; the worker processes are
    taken to run the chunks one after another. *)
Definition pool_starmap (n_cores : nat) (arguments : list job) : M unit :=
  if n_cores <? 1 then raise (ValueError err_pool)
  else
    let chunksize :=
      length arguments / (n_cores * 4)
      + (if length arguments mod (n_cores * 4) =? 0 then 0 else 1) in
    failed <- run_tasks (get_tasks chunksize arguments) None ;;
    match failed with
    | Some e => raise e
    | None => ret tt
    end.

(** [glob.glob(pattern)] *)
Definition glob (pattern : pystr) : M (list pystr) :=
  fun w => (Ok (globbed w pattern), w).

(** [if not os.path.exists(d): os.makedirs(d)] *)
Definition ensure_dir (d : pystr) : M unit :=
  fun w =>
    if exists_path w d then (Ok tt, w)
    else (Ok tt,
          {| files := files w; globbed := globbed w;
             exists_path := fun p => pystr_eqb p d || exists_path w p;
             log := log w ++ [EvMakedirs d] |}).

(** [process_directory(input_dir, output_dir, scale, compression, flip_tif,
                       force_tif, force_mrc, force_jpg, n_cores, keep_basename)] *)
Definition process_directory (input_dir output_dir : pystr) (scale : nat)
           (compression : pystr) (flip_tif : option bool)
           (force_tif force_mrc force_jpg : bool) (n_cores : nat)
           (keep_basename : bool) : M unit :=
  file_list <- glob (path_join input_dir (str "*")) ;;
  ensure_dir output_dir ;;
  let arguments :=
    build_arguments file_list output_dir scale compression flip_tif
                    force_tif force_mrc force_jpg keep_basename in
  pool_starmap n_cores arguments.
(* ================================================================== *)
(** * Vocabulary of the statements *)
(* ================================================================== *)

(** The world after one more logged event. *)
Definition logged (w : world) (e : io_event) : world :=
  {| files := files w; globbed := globbed w; exists_path := exists_path w;
     log := log w ++ [e] |}.

(** The world after [path] has been (over)written with [a]. *)
Definition stored (w : world) (path : pystr) (a : ndarray) : world :=
  {| files := fun p => if pystr_eqb p path then Some a else files w p;
     globbed := globbed w; exists_path := exists_path w; log := log w |}.

(** A world holding the given image files, with an empty log. *)
Definition world_of (fs : list (pystr * ndarray)) : world :=
  {| files := fun p =>
       match find (fun kv => pystr_eqb (fst kv) p) fs with
       | Some kv => Some (snd kv)
       | None => None
       end;
     globbed := fun _ => [];
     exists_path := fun _ => false;
     log := [] |}.

(** Frames [0 .. i) of a partly filled stack are the scaled frames of the
    original: sample (y, x) of frame k fills its f-by-f block. *)
Definition frames_scaled (a proc : ndarray) (f h w i : nat) : Prop :=
  forall k y x dy dx, k < i -> y < h -> x < w -> dy < f -> dx < f ->
    nth_error (arr_data proc)
              (k * ((h * f) * (w * f)) + ((y * f + dy) * (w * f) + (x * f + dx)))
    = nth_error (arr_data a) (k * (h * w) + (y * w + x)).

(** The file name that keeps the stem and the extension of [name], as
    [splitext] finds them, with [mid] in between. *)
Definition with_suffix (mid name : pystr) : pystr :=
  fst (splitext name) ++ mid ++ snd (splitext name).

(** The prefix [os.path.join(d, name)] puts before a relative [name]. *)
Definition join_prefix (d : pystr) : pystr :=
  if (length d =? 0) || endswith d [ch_sep] then d else d ++ [ch_sep].

(** The extension a directory entry is forced to when [keep_basename] is
    off and some force flag is on. *)
Definition forced_ext (force_tif force_mrc : bool) : pystr :=
  if force_tif then str ".tif" else if force_mrc then str ".mrc" else str ".jpg".

(** A file name without its extension. *)
Definition stem (input_file : pystr) : pystr :=
  fst (splitext (basename input_file)).

(** A directory "in" holding a 1-by-1 TIFF image and a 2-by-1 MRC image. *)
Definition batch_world : world :=
  {| files :=
       files (world_of [(str "in/a.tif", mk_ndarray UInt8 [1; 1] [7]%Z);
                        (str "in/b.mrc", mk_ndarray UInt8 [2; 1] [5; 9]%Z)]);
     globbed := fun pattern =>
       if pystr_eqb pattern (str "in/*")
       then [str "in/a.tif"; str "in/b.mrc"] else [];
     exists_path := fun _ => true;
     log := [] |}.




(** The extension the single-file path ends up with: the last of
    [force_tif], [force_mrc], [force_jpg] that is set decides, and without
    any of them the extension [ext] of the input stays. *)
Definition final_ext (a : args) (ext : pystr) : pystr :=
  if a_force_jpg a then str ".jpg"
  else if a_force_mrc a then str ".mrc"
  else if a_force_tif a then str ".tif"
  else ext.

(** Where sample [idx] of an image scaled by [f] comes from in the source
    image of width [w]: row and column are both divided by [f]. *)
Definition src_index (w f idx : nat) : nat :=
  (idx / (w * f)) / f * w + (idx mod (w * f)) / f.

(** The [argparse] namespace of version 1. *)
Record v1_args := mk_v1_args {
  v1_input : pystr;
  v1_scale : nat;
  v1_output : option pystr;
  v1_force_tif : bool;
  v1_force_mrc : bool
}.

(** Version 1, [__main__]: the output path handed to [process_stack]. *)
Definition v1_main_output (a : v1_args) : pystr :=
  let output :=
    match v1_output a with
    | Some o => o
    | None =>
        let (base_name, ext) := splitext (v1_input a) in
        base_name ++ pasr_suffix (v1_scale a) ++ ext
    end in
  let output := if v1_force_tif a then replace_ext output (str ".tif") else output in
  let output := if v1_force_mrc a then replace_ext output (str ".mrc") else output in
  output.

(** The version 2 namespace that corresponds to a version 1 command line:
    the options version 1 does not have are at their defaults. *)
Definition v2_of_v1 (a : v1_args) (n_cores : nat) : args :=
  {| a_input := v1_input a; a_scale := v1_scale a; a_output := v1_output a;
     a_compression := str "lzw"; a_n_cores := n_cores;
     a_keep_basename := false; a_flip_tif := None;
     a_force_tif := v1_force_tif a; a_force_mrc := v1_force_mrc a;
     a_force_jpg := false |}.


(* ================================================================== *)
(** * Lemmas on blocks of a flat buffer *)
(* ================================================================== *)

Section Blocks.

Context {A : Type}.

Lemma nth_error_concat_uniform (m : nat) (cs : list (list A)) (i j : nat) :
  Forall (fun c => length c = m) cs -> j < m ->
  nth_error (concat cs) (i * m + j) =
  match nth_error cs i with
  | Some c => nth_error c j
  | None => None
  end.
Proof.
  intros Hu Hj. revert i.
  induction Hu as [|c cs Hc _ IH]; intros i.
  - simpl. destruct i; destruct (_ + _); reflexivity.
  - destruct i as [|i]; simpl.
    + apply nth_error_app1. lia.
    + rewrite nth_error_app2 by lia.
      replace (m + i * m + j - length c) with (i * m + j) by lia.
      apply IH.
Qed.

Lemma length_concat_uniform (m : nat) (cs : list (list A)) :
  Forall (fun c => length c = m) cs ->
  length (concat cs) = length cs * m.
Proof.
  induction 1 as [|c cs Hc _ IH]; simpl; [reflexivity|].
  rewrite length_app, IH, Hc. reflexivity.
Qed.

Lemma Forall_flat_map_repeat (P : A -> Prop) (r : nat) (l : list A) :
  Forall P l -> Forall P (flat_map (fun c => repeat c r) l).
Proof.
  induction 1 as [|c l Hc _ IH]; simpl; [constructor|].
  apply Forall_app. split; [|exact IH].
  apply Forall_forall. intros x Hx. apply repeat_spec in Hx. now subst.
Qed.

Lemma length_flat_map_repeat (r : nat) (l : list A) :
  length (flat_map (fun c => repeat c r) l) = length l * r.
Proof.
  induction l as [|c l IH]; simpl; [reflexivity|].
  rewrite length_app, repeat_length, IH. reflexivity.
Qed.

Lemma nth_error_flat_map_repeat (r : nat) (l : list A) (i j : nat) :
  j < r ->
  nth_error (flat_map (fun c => repeat c r) l) (i * r + j) = nth_error l i.
Proof.
  intros Hj. revert i. induction l as [|c l IH]; intros i.
  - simpl. destruct i; destruct (_ + _); reflexivity.
  - destruct i as [|i]; simpl.
    + rewrite nth_error_app1 by (rewrite repeat_length; lia).
      apply nth_error_repeat. exact Hj.
    + rewrite nth_error_app2 by (rewrite repeat_length; lia).
      rewrite repeat_length.
      replace (r + i * r + j - r) with (i * r + j) by lia.
      apply IH.
Qed.

End Blocks.

Lemma length_chunk (m : nat) (l : list Z) (i : nat) :
  S i * m <= length l -> length (chunk m l i) = m.
Proof.
  intros H. unfold chunk. rewrite length_firstn, length_skipn. simpl in H. lia.
Qed.

Lemma nth_error_chunk (m : nat) (l : list Z) (i k : nat) :
  k < m -> nth_error (chunk m l i) k = nth_error l (i * m + k).
Proof.
  intros H. unfold chunk. rewrite nth_error_firstn.
  apply Nat.ltb_lt in H. rewrite H. apply nth_error_skipn.
Qed.

Lemma length_chunks (m n : nat) (l : list Z) : length (chunks m n l) = n.
Proof. unfold chunks. now rewrite length_map, length_seq. Qed.

Lemma nth_error_chunks (m n : nat) (l : list Z) (i : nat) :
  i < n -> nth_error (chunks m n l) i = Some (chunk m l i).
Proof.
  intros H. unfold chunks. rewrite nth_error_map, nth_error_seq.
  apply Nat.ltb_lt in H. now rewrite H.
Qed.

Lemma chunks_uniform (m n : nat) (l : list Z) :
  n * m <= length l -> Forall (fun c => length c = m) (chunks m n l).
Proof.
  intros H. unfold chunks. apply Forall_map, Forall_forall.
  intros i Hi. apply in_seq in Hi. apply length_chunk. simpl. nia.
Qed.

(** The buffer [np_repeat] builds: [n] blocks of [m] samples, each block
    repeated [r] times. *)
Lemma length_repeat_blocks (m n r : nat) (l : list Z) :
  n * m <= length l ->
  length (concat (flat_map (fun c => repeat c r) (chunks m n l))) = n * r * m.
Proof.
  intros H.
  rewrite (length_concat_uniform (m := m)).
  - now rewrite length_flat_map_repeat, length_chunks.
  - apply Forall_flat_map_repeat, chunks_uniform, H.
Qed.

Lemma nth_error_repeat_blocks (m n r : nat) (l : list Z) (i j k : nat) :
  n * m <= length l -> i < n -> j < r -> k < m ->
  nth_error (concat (flat_map (fun c => repeat c r) (chunks m n l)))
            ((i * r + j) * m + k)
  = nth_error l (i * m + k).
Proof.
  intros H Hi Hj Hk.
  rewrite (nth_error_concat_uniform (m := m)); [|
    apply Forall_flat_map_repeat, chunks_uniform, H | exact Hk].
  rewrite nth_error_flat_map_repeat by exact Hj.
  rewrite nth_error_chunks by exact Hi.
  apply nth_error_chunk, Hk.
Qed.
(* ================================================================== *)
(** * The scaler on images and on frame stacks *)
(* ================================================================== *)

Lemma index_bound (y x h w : nat) : y < h -> x < w -> y * w + x < h * w.
Proof.
  intros Hy Hx.
  assert (S y * w <= h * w) by (apply Nat.mul_le_mono_r; lia).
  simpl in *. lia.
Qed.

Lemma pixel2_eq (a : ndarray) (h w y x : nat) :
  arr_shape a = [h; w] -> y < h -> x < w ->
  pixel2 a y x = nth_error (arr_data a) (y * w + x).
Proof.
  intros Hs Hy Hx. unfold pixel2. rewrite Hs.
  apply Nat.ltb_lt in Hy, Hx. now rewrite Hy, Hx.
Qed.

Lemma pixel3_eq (a : ndarray) (n h w i y x : nat) :
  arr_shape a = [n; h; w] -> i < n -> y < h -> x < w ->
  pixel3 a i y x = nth_error (arr_data a) (i * (h * w) + y * w + x).
Proof.
  intros Hs Hi Hy Hx. unfold pixel3. rewrite Hs.
  apply Nat.ltb_lt in Hi, Hy, Hx. now rewrite Hi, Hy, Hx.
Qed.

Lemma pixel2_defined (a : ndarray) (h w y x : nat) :
  well_formed a -> arr_shape a = [h; w] -> y < h -> x < w ->
  pixel2 a y x <> None.
Proof.
  intros Hwf Hs Hy Hx. rewrite (pixel2_eq a Hs Hy Hx).
  apply nth_error_Some. unfold well_formed in Hwf. rewrite Hwf, Hs. simpl.
  rewrite Nat.mul_1_r. now apply index_bound.
Qed.

Lemma pixel3_defined (a : ndarray) (n h w i y x : nat) :
  well_formed a -> arr_shape a = [n; h; w] -> i < n -> y < h -> x < w ->
  pixel3 a i y x <> None.
Proof.
  intros Hwf Hs Hi Hy Hx. rewrite (pixel3_eq a Hs Hi Hy Hx).
  apply nth_error_Some. unfold well_formed in Hwf. rewrite Hwf, Hs. simpl.
  rewrite Nat.mul_1_r, <- Nat.add_assoc.
  apply index_bound; [exact Hi | now apply index_bound].
Qed.

(** [scale_image] on a rank-2 array. *)
Lemma scale_image_2d (a : ndarray) (f h w : nat) :
  well_formed a -> arr_shape a = [h; w] ->
  exists out,
    scale_image a f = Ok out
    /\ arr_shape out = [h * f; w * f]
    /\ arr_dtype out = arr_dtype a
    /\ well_formed out
    /\ forall y x dy dx, y < h -> x < w -> dy < f -> dx < f ->
         nth_error (arr_data out) ((y * f + dy) * (w * f) + (x * f + dx))
         = nth_error (arr_data a) (y * w + x).
Proof.
  intros Hwf Hs. unfold well_formed in Hwf. rewrite Hs in Hwf. simpl in Hwf.
  unfold scale_image, np_repeat. rewrite Hs. simpl.
  eexists. split; [reflexivity|]. simpl.
  assert (L1 : length (concat (flat_map (fun c => repeat c f)
                        (chunks 1 (h * (w * 1)) (arr_data a)))) = h * w * f).
  { rewrite length_repeat_blocks by lia. lia. }
  repeat split.
  - unfold well_formed. simpl.
    rewrite length_repeat_blocks by (rewrite L1; nia). nia.
  - intros y x dy dx Hy Hx Hdy Hdx.
    replace (w * f * 1) with (w * f) by lia.
    replace (h * 1) with h by lia.
    rewrite nth_error_repeat_blocks; [| rewrite L1; nia | lia | lia | nia].
    replace (y * (w * f) + (x * f + dx)) with (((y * w + x) * f + dx) * 1 + 0)
      by ring.
    rewrite nth_error_repeat_blocks; [| lia | nia | lia | lia].
    f_equal. lia.
Qed.

Lemma length_splice (d v : list Z) (i m : nat) :
  length v = m -> S i * m <= length d ->
  length (firstn (i * m) d ++ v ++ skipn (S i * m) d) = length d.
Proof.
  intros Hv Hd. rewrite !length_app, length_firstn, length_skipn.
  simpl in *. lia.
Qed.

Lemma nth_error_splice_before (d v : list Z) (i m idx : nat) :
  S i * m <= length d -> idx < i * m ->
  nth_error (firstn (i * m) d ++ v ++ skipn (S i * m) d) idx = nth_error d idx.
Proof.
  intros Hd Hidx.
  rewrite nth_error_app1 by (rewrite length_firstn; simpl in *; lia).
  rewrite nth_error_firstn. apply Nat.ltb_lt in Hidx. now rewrite Hidx.
Qed.

Lemma nth_error_splice_at (d v : list Z) (i m k : nat) :
  length v = m -> S i * m <= length d -> k < m ->
  nth_error (firstn (i * m) d ++ v ++ skipn (S i * m) d) (i * m + k)
  = nth_error v k.
Proof.
  intros Hv Hd Hk.
  assert (Hl : length (firstn (i * m) d) = i * m)
    by (rewrite length_firstn; simpl in *; lia).
  rewrite nth_error_app2 by lia. rewrite Hl.
  replace (i * m + k - i * m) with k by lia.
  apply nth_error_app1. lia.
Qed.

Lemma scale_frames_spec (a : ndarray) (f n h w : nat) :
  well_formed a -> arr_shape a = [n; h; w] ->
  forall cnt i proc,
    i + cnt = n ->
    arr_shape proc = [n; h * f; w * f] ->
    length (arr_data proc) = n * ((h * f) * (w * f)) ->
    frames_scaled a proc f h w i ->
    exists out,
      scale_frames a proc f i cnt = Ok out
      /\ arr_shape out = [n; h * f; w * f]
      /\ arr_dtype out = arr_dtype proc
      /\ length (arr_data out) = n * ((h * f) * (w * f))
      /\ frames_scaled a out f h w n.
Proof.
  intros Hwf Hs. unfold well_formed in Hwf. rewrite Hs in Hwf. simpl in Hwf.
  rewrite Nat.mul_1_r in Hwf.
  induction cnt as [|cnt IH]; intros i proc Hi Hps Hpl Hinv.
  - rewrite Nat.add_0_r in Hi. subst i. exists proc. simpl. auto.
  - assert (Hin : i < n) by lia.
    assert (Hblk : S i * (h * w) <= length (arr_data a)).
    { rewrite Hwf. apply Nat.mul_le_mono_r. lia. }
    assert (Hblk' : S i * ((h * f) * (w * f)) <= length (arr_data proc)).
    { rewrite Hpl. apply Nat.mul_le_mono_r. lia. }
    simpl scale_frames. unfold getitem. rewrite Hs.
    apply Nat.ltb_lt in Hin as Hin'. rewrite Hin'. cbn [res_bind].
    set (frame := {| arr_dtype := arr_dtype a; arr_shape := [h; w];
                     arr_data := chunk (prod_shape [h; w]) (arr_data a) i |}).
    assert (Hfs : arr_shape frame = [h; w]) by reflexivity.
    assert (Hfw : well_formed frame).
    { unfold well_formed, frame. cbn [arr_data arr_shape].
      apply length_chunk. simpl. rewrite Nat.mul_1_r. exact Hblk. }
    destruct (scale_image_2d f Hfw Hfs)
      as (scaled & Hsc & Hss & Hsd & Hsw & Hpix).
    rewrite Hsc. cbn [res_bind].
    unfold setitem. rewrite Hps, Hin', Hss.
    destruct (list_eq_dec Nat.eq_dec [h * f; w * f] [h * f; w * f])
      as [_|Hne]; [|contradiction].
    cbn [res_bind].
    assert (Hm : prod_shape [h * f; w * f] = (h * f) * (w * f))
      by (simpl; now rewrite Nat.mul_1_r).
    rewrite Hm.
    assert (Hsl : length (arr_data scaled) = (h * f) * (w * f)).
    { unfold well_formed in Hsw. rewrite Hsw, Hss. exact Hm. }
    match goal with
    | |- exists out, scale_frames _ ?p _ _ _ = _ /\ _ =>
        destruct (IH (S i) p) as (out & Ho & Hos & Hod & Hol & Hoi);
        cbn [arr_shape arr_data arr_dtype]
    end.
    + lia.
    + reflexivity.
    + rewrite length_splice; assumption.
    + intros k y x dy dx Hk Hy Hx Hdy Hdx. cbn [arr_data].
      assert (Hin2 : (y * f + dy) * (w * f) + (x * f + dx) < (h * f) * (w * f)).
      { apply index_bound; apply index_bound; assumption. }
      destruct (Nat.eq_dec k i) as [->|Hki].
      * rewrite nth_error_splice_at by assumption.
        rewrite Hpix by assumption.
        unfold frame. cbn [arr_data].
        rewrite nth_error_chunk
          by (simpl; rewrite Nat.mul_1_r; now apply index_bound).
        simpl. now rewrite Nat.mul_1_r.
      * rewrite nth_error_splice_before.
        -- apply Hinv; try assumption. lia.
        -- exact Hblk'.
        -- assert (S k * ((h * f) * (w * f)) <= i * ((h * f) * (w * f)))
             by (apply Nat.mul_le_mono_r; lia).
           simpl in *. lia.
    + exists out. cbn [arr_dtype] in Hod. auto.
Qed.

(** The [ndim == 3] branch on a frame stack. *)
Lemma scale_stack_3d (a : ndarray) (f n h w : nat) :
  well_formed a -> arr_shape a = [n; h; w] ->
  exists out,
    scale_stack a f = Ok out
    /\ arr_shape out = [n; h * f; w * f]
    /\ arr_dtype out = arr_dtype a
    /\ well_formed out
    /\ frames_scaled a out f h w n.
Proof.
  intros Hwf Hs. unfold scale_stack, shape_at. rewrite Hs. cbn [nth_error res_bind].
  destruct (@scale_frames_spec a f n h w Hwf Hs n 0
              (np_empty [n; h * f; w * f] (arr_dtype a)))
    as (out & Ho & Hos & Hod & Hol & Hoi).
  - reflexivity.
  - reflexivity.
  - cbn [np_empty arr_data]. rewrite repeat_length. simpl.
    now rewrite Nat.mul_1_r.
  - intros k y x dy dx Hk. lia.
  - exists out. repeat split; try assumption.
    unfold well_formed. rewrite Hol, Hos. simpl. now rewrite Nat.mul_1_r.
Qed.

(* ================================================================== *)
(** * C1: pixel replication *)
(* ================================================================== *)

(** C1.  Scaling a well-formed rank-2 buffer of shape (h, w) by a factor f
    yields a buffer of shape (h*f, w*f) with the same element type in which
    the f-by-f block at rows [y*f, y*f+f) and columns [x*f, x*f+f) is
    constant and equal to the input sample at (y, x); for a rank-3 buffer
    of shape (n, h, w) the "Scaling the image" step of [process_file]
    yields shape (n, h*f, w*f), same element type, and the same block
    property in every frame.  The factor is arbitrary, so 2, 3 and 4 are
    covered. *)
Theorem C1_scale_replicates_pixels (a : ndarray) (f : nat) :
  well_formed a ->
  (forall h w, arr_shape a = [h; w] ->
     exists out,
       scale_image a f = Ok out
       /\ scale_data a f = Ok out
       /\ arr_shape out = [h * f; w * f]
       /\ arr_dtype out = arr_dtype a
       /\ forall y x dy dx, y < h -> x < w -> dy < f -> dx < f ->
            pixel2 out (y * f + dy) (x * f + dx) = pixel2 a y x
            /\ pixel2 a y x <> None)
  /\
  (forall n h w, arr_shape a = [n; h; w] ->
     exists out,
       scale_data a f = Ok out
       /\ arr_shape out = [n; h * f; w * f]
       /\ arr_dtype out = arr_dtype a
       /\ forall i y x dy dx, i < n -> y < h -> x < w -> dy < f -> dx < f ->
            pixel3 out i (y * f + dy) (x * f + dx) = pixel3 a i y x
            /\ pixel3 a i y x <> None).
Proof.
  intros Hwf. split.
  - intros h w Hs.
    destruct (scale_image_2d f Hwf Hs) as (out & Ho & Hos & Hod & _ & Hpix).
    exists out. split; [exact Ho|]. split.
    { unfold scale_data, ndim. rewrite Hs. exact Ho. }
    split; [exact Hos|]. split; [exact Hod|].
    intros y x dy dx Hy Hx Hdy Hdx. split.
    + rewrite (pixel2_eq a Hs Hy Hx).
      rewrite (@pixel2_eq out (h * f) (w * f)); try assumption.
      * now apply Hpix.
      * apply (index_bound (y:=y) (x:=dy) (h:=h) (w:=f)); assumption.
      * apply (index_bound (y:=x) (x:=dx) (h:=w) (w:=f)); assumption.
    + now apply (pixel2_defined (h:=h) (w:=w)).
  - intros n h w Hs.
    destruct (scale_stack_3d f Hwf Hs) as (out & Ho & Hos & Hod & _ & Hpix).
    exists out. split.
    { unfold scale_data, ndim. rewrite Hs. exact Ho. }
    split; [exact Hos|]. split; [exact Hod|].
    intros i y x dy dx Hi Hy Hx Hdy Hdx. split.
    + rewrite (pixel3_eq a Hs Hi Hy Hx).
      rewrite (@pixel3_eq out n (h * f) (w * f)); try assumption.
      * rewrite <- !Nat.add_assoc. now apply Hpix.
      * apply (index_bound (y:=y) (x:=dy) (h:=h) (w:=f)); assumption.
      * apply (index_bound (y:=x) (x:=dx) (h:=w) (w:=f)); assumption.
    + now apply (pixel3_defined (n:=n) (h:=h) (w:=w)).
Qed.

(** A 2-by-3 image scaled by 3. *)
Lemma C1_witness :
  exists out,
    scale_data (mk_ndarray UInt16 [2; 3] [1; 2; 3; 4; 5; 6]%Z) 3 = Ok out
    /\ arr_shape out = [6; 9]
    /\ arr_dtype out = UInt16
    /\ pixel2 out 5 8 = Some 6%Z.
Proof.
  assert (Hwf : well_formed (mk_ndarray UInt16 [2; 3] [1; 2; 3; 4; 5; 6]%Z))
    by reflexivity.
  destruct (@C1_scale_replicates_pixels _ 3 Hwf) as [H2 _].
  destruct (H2 2 3 eq_refl) as (out & _ & Ho & Hs & Hd & Hpix).
  exists out. repeat split; try assumption.
  destruct (Hpix 1 2 2 2) as [Hp _]; try lia. exact Hp.
Defined.

(* ================================================================== *)
(** * Suffix tests *)
(* ================================================================== *)

Lemma pystr_eqb_true (a b : pystr) : pystr_eqb a b = true <-> a = b.
Proof.
  unfold pystr_eqb. destruct (list_eq_dec ascii_dec a b); split; congruence.
Qed.

Lemma pystr_eqb_refl (a : pystr) : pystr_eqb a a = true.
Proof. now apply pystr_eqb_true. Qed.

Lemma endswith_true (s x : pystr) :
  endswith s x = true <->
  skipn (length s - length x) s = x /\ length x <= length s.
Proof.
  unfold endswith. rewrite andb_true_iff, pystr_eqb_true, Nat.leb_le. tauto.
Qed.

Lemma endswith_app (pre x : pystr) : endswith (pre ++ x) x = true.
Proof.
  apply endswith_true. rewrite length_app. split; [|lia].
  replace (length pre + length x - length x) with (length pre + 0) by lia.
  rewrite skipn_app, Nat.add_0_r, skipn_all.
  replace (length pre - length pre) with 0 by lia. reflexivity.
Qed.

(** Two suffixes of one string: the shorter is a suffix of the longer. *)
Lemma endswith_nested (s x y : pystr) :
  endswith s x = true -> endswith s y = true -> length y <= length x ->
  endswith x y = true.
Proof.
  intros Hx Hy Hl.
  apply endswith_true in Hx as [Hx Hlx]. apply endswith_true in Hy as [Hy Hly].
  apply endswith_true. split; [|exact Hl].
  rewrite <- Hx at 2. rewrite skipn_skipn.
  replace (length x - length y + (length s - length x))
    with (length s - length y) by lia.
  exact Hy.
Qed.

(** A path that ends in one extension does not end in an unrelated one. *)
Lemma endswith_excl (s x y : pystr) :
  endswith s x = true -> endswith x y = false -> endswith y x = false ->
  endswith s y = false.
Proof.
  intros Hx Hxy Hyx.
  destruct (endswith s y) eqn:Hy; [|reflexivity].
  destruct (Nat.le_ge_cases (length y) (length x)) as [Hl|Hl].
  - rewrite (@endswith_nested s x y Hx Hy Hl) in Hxy. discriminate.
  - rewrite (@endswith_nested s y x Hy Hx Hl) in Hyx. discriminate.
Qed.

Lemma jpg_not_mrc_tif (p : pystr) :
  endswith p (str ".jpg") = true ->
  endswith p (str ".mrc") || endswith p (str ".mrcs") = false
  /\ endswith p (str ".tif") || endswith p (str ".tiff") = false.
Proof.
  intros H.
  rewrite (@endswith_excl p _ (str ".mrc") H) by reflexivity.
  rewrite (@endswith_excl p _ (str ".mrcs") H) by reflexivity.
  rewrite (@endswith_excl p _ (str ".tif") H) by reflexivity.
  rewrite (@endswith_excl p _ (str ".tiff") H) by reflexivity.
  auto.
Qed.

Lemma tif_not_mrc (p : pystr) :
  endswith p (str ".tif") || endswith p (str ".tiff") = true ->
  endswith p (str ".mrc") || endswith p (str ".mrcs") = false.
Proof.
  intros H. apply orb_true_iff in H as [H|H];
    rewrite (@endswith_excl p _ (str ".mrc") H) by reflexivity;
    rewrite (@endswith_excl p _ (str ".mrcs") H) by reflexivity;
    reflexivity.
Qed.

(* ================================================================== *)
(** * Running the file processor *)
(* ================================================================== *)

Lemma mrc_read_run (path : pystr) (w : world) :
  mrc_read path w =
  match files w path with
  | Some a => (Ok a, logged w (EvMrcOpen path))
  | None => (Raise (DecodeError path), logged w (EvMrcOpen path))
  end.
Proof.
  unfold mrc_read, bind, emit, load, logged. simpl.
  destruct (files w path); reflexivity.
Qed.

Lemma imread_run (path : pystr) (w : world) :
  imread path w =
  match files w path with
  | Some a => (Ok a, logged w (EvImread path))
  | None => (Raise (DecodeError path), logged w (EvImread path))
  end.
Proof.
  unfold imread, bind, emit, load, logged. simpl.
  destruct (files w path); reflexivity.
Qed.

(** A successful read returns what the file holds, writes nothing and
    leaves every file as it was. *)
Lemma read_input_ok (input_file : pystr) (w w1 : world) (a : ndarray) :
  read_input input_file w = (Ok a, w1) ->
  files w input_file = Some a
  /\ files w1 = files w
  /\ filter is_write (log w1) = filter is_write (log w).
Proof.
  unfold read_input. intros H.
  destruct (endswith input_file (str ".mrc") || endswith input_file (str ".mrcs")).
  - rewrite mrc_read_run in H. destruct (files w input_file); inversion H; subst.
    simpl. rewrite filter_app. simpl. now rewrite app_nil_r.
  - destruct (endswith input_file (str ".tif") || endswith input_file (str ".tiff")
              || endswith input_file (str ".jpg")).
    + rewrite imread_run in H. destruct (files w input_file); inversion H; subst.
      simpl. rewrite filter_app. simpl. now rewrite app_nil_r.
    + discriminate H.
Qed.

Lemma ndim3_shape (a : ndarray) :
  ndim a = 3 -> exists n h w, arr_shape a = [n; h; w].
Proof.
  unfold ndim. destruct (arr_shape a) as [|n [|h [|w [|]]]]; try discriminate.
  intros _. now exists n, h, w.
Qed.

(* ================================================================== *)
(** * C8: invalid dimensionality *)
(* ================================================================== *)

(** C8.  When the buffer decoded from the input has a rank other than 2 or
    3, [process_file] raises the "Unsupported data dimensions" error; the
    world it leaves is the one the read left, so every file is as before
    and no write event has been added to the log: the error comes before
    any encode step. *)
Theorem C8_bad_rank_raises_before_write
        (input_file output_file : pystr) (scale : nat) (compression : pystr)
        (flip_tif : bool) (w w1 : world) (a : ndarray) :
  read_input input_file w = (Ok a, w1) ->
  ndim a <> 2 -> ndim a <> 3 ->
  process_file input_file output_file scale compression flip_tif w
  = (Raise (ValueError err_dims), w1)
  /\ files w1 = files w
  /\ filter is_write (log w1) = filter is_write (log w).
Proof.
  intros Hread H2 H3.
  destruct (read_input_ok _ _ Hread) as (_ & Hf & Hl).
  split; [|split; assumption].
  unfold process_file, bind. rewrite Hread.
  unfold lift, scale_data.
  apply Nat.eqb_neq in H2, H3. now rewrite H3, H2.
Qed.

(** A rank-1 buffer is rejected before anything is written. *)
Lemma C8_witness :
  let w := world_of [(str "line.tif", mk_ndarray UInt8 [4] [7; 8; 9; 10]%Z)] in
  fst (process_file (str "line.tif") (str "line_PASR_2x.tif") 2 (str "lzw") false w)
  = Raise (ValueError err_dims)
  /\ filter is_write
            (log (snd (process_file (str "line.tif") (str "line_PASR_2x.tif") 2
                                    (str "lzw") false w)))
     = [].
Proof.
  intros w.
  destruct (@C8_bad_rank_raises_before_write
              (str "line.tif") (str "line_PASR_2x.tif") 2 (str "lzw") false
              w (logged w (EvImread (str "line.tif")))
              (mk_ndarray UInt8 [4] [7; 8; 9; 10]%Z))
    as (Hrun & _ & Hlog).
  - reflexivity.
  - discriminate.
  - discriminate.
  - rewrite Hrun. split; [reflexivity|exact Hlog].
Defined.

(* ================================================================== *)
(** * C4: a frame stack sent to JPEG *)
(* ================================================================== *)

(** C4.  When the decoded buffer is a (well-formed) rank-3 stack and the
    output path ends in ".jpg", [process_file] reports
    "Error: Cannot save 2D frame stack as JPG." and returns: the only
    effect after the read is that message, every file is as before and no
    write event is logged.  Since the call returns without raising, the
    worker goes on with the remaining jobs of its chunk. *)
Theorem C4_stack_to_jpg_writes_nothing
        (input_file output_file : pystr) (scale : nat) (compression : pystr)
        (flip_tif : bool) (w w1 : world) (a : ndarray) :
  read_input input_file w = (Ok a, w1) ->
  well_formed a -> ndim a = 3 ->
  endswith output_file (str ".jpg") = true ->
  let w2 := logged w1 (EvPrint err_jpg_stack) in
  process_file input_file output_file scale compression flip_tif w = (Ok tt, w2)
  /\ files w2 = files w
  /\ filter is_write (log w2) = filter is_write (log w)
  /\ forall rest,
       mapstar (mk_job input_file output_file scale compression flip_tif :: rest) w
       = mapstar rest w2.
Proof.
  intros Hread Hwf Hnd Hjpg w2.
  destruct (read_input_ok _ _ Hread) as (_ & Hf & Hl).
  destruct (ndim3_shape _ Hnd) as (n & h & wd & Hs).
  destruct (scale_stack_3d scale Hwf Hs) as (out & Ho & _).
  destruct (jpg_not_mrc_tif _ Hjpg) as [Hm Ht].
  assert (Hrun : process_file input_file output_file scale compression flip_tif w
                 = (Ok tt, w2)).
  { unfold process_file, bind. rewrite Hread.
    unfold lift, scale_data. rewrite Hnd. cbn [Nat.eqb]. rewrite Ho.
    unfold write_output. rewrite Hm, Ht, Hjpg, Hnd. reflexivity. }
  split; [exact Hrun|]. split; [exact Hf|]. split.
  - unfold w2, logged. cbn [log]. rewrite filter_app. simpl.
    now rewrite app_nil_r.
  - intros rest. cbn [mapstar]. unfold bind, run_job. cbn [j_input j_output
      j_scale j_compression j_flip]. now rewrite Hrun.
Qed.

(** A two-frame stack sent to a ".jpg" path leaves no output file. *)
Lemma C4_witness :
  let stack := mk_ndarray UInt16 [2; 1; 2] [1; 2; 3; 4]%Z in
  let w := world_of [(str "s.mrc", stack)] in
  fst (process_file (str "s.mrc") (str "s_PASR_2x.jpg") 2 (str "lzw") false w)
  = Ok tt
  /\ files (snd (process_file (str "s.mrc") (str "s_PASR_2x.jpg") 2 (str "lzw")
                              false w)) (str "s_PASR_2x.jpg") = None.
Proof.
  intros stack w.
  destruct (@C4_stack_to_jpg_writes_nothing
              (str "s.mrc") (str "s_PASR_2x.jpg") 2 (str "lzw") false
              w (logged w (EvMrcOpen (str "s.mrc"))) stack)
    as (Hrun & Hfiles & _).
  - reflexivity.
  - reflexivity.
  - reflexivity.
  - reflexivity.
  - rewrite Hrun. split; [reflexivity|]. cbn [snd]. rewrite Hfiles. reflexivity.
Defined.

(* ================================================================== *)
(** * C10: flipping a single image *)
(* ================================================================== *)

Lemma np_flip0_2d (a : ndarray) (h w : nat) :
  well_formed a -> arr_shape a = [h; w] ->
  exists out,
    np_flip0 a = Ok out
    /\ arr_shape out = [h; w]
    /\ arr_dtype out = arr_dtype a
    /\ forall y x, y < h -> x < w ->
         pixel2 out y x = pixel2 a (h - 1 - y) x.
Proof.
  intros Hwf Hs. unfold well_formed in Hwf. rewrite Hs in Hwf. simpl in Hwf.
  unfold np_flip0. rewrite Hs. eexists. split; [reflexivity|].
  cbn [arr_shape arr_dtype]. split; [reflexivity|]. split; [reflexivity|].
  intros y x Hy Hx.
  rewrite (@pixel2_eq _ h w) by (assumption || reflexivity).
  rewrite (@pixel2_eq a h w) by (assumption || lia).
  cbn [arr_data]. simpl prod_shape. rewrite Nat.mul_1_r.
  assert (Hu : Forall (fun c => length c = w)
                      (List.rev (chunks w h (arr_data a)))).
  { apply Forall_rev, chunks_uniform. lia. }
  rewrite (nth_error_concat_uniform y Hu Hx).
  rewrite nth_error_rev, length_chunks.
  apply Nat.ltb_lt in Hy as Hy'. rewrite Hy'.
  rewrite nth_error_chunks by lia.
  rewrite nth_error_chunk by exact Hx.
  f_equal. lia.
Qed.

(** C10.  For a rank-2 buffer of shape (h, w) written to a ".tif"/".tiff"
    path with the flip flag true, the array handed to the TIFF encoder (and
    found in the output file afterwards) has the shape and element type of
    the scaled buffer and its row y is row (h*scale - 1 - y) of the scaled
    buffer: [np.flip(..., axis=0)] reverses the image rows. *)
Theorem C10_flip_reverses_image_rows
        (input_file output_file : pystr) (scale : nat) (compression : pystr)
        (w w1 : world) (a : ndarray) (h wd : nat) :
  read_input input_file w = (Ok a, w1) ->
  well_formed a -> arr_shape a = [h; wd] ->
  endswith output_file (str ".tif") || endswith output_file (str ".tiff") = true ->
  exists scaled written,
    scale_image a scale = Ok scaled
    /\ process_file input_file output_file scale compression true w
       = (Ok tt,
          logged (stored (logged w1 (EvImwrite output_file written compression))
                         output_file written)
                 (EvPrint (msg_tif output_file compression
                                   (str "Flipping applied."))))
    /\ arr_shape written = [h * scale; wd * scale]
    /\ arr_dtype written = arr_dtype a
    /\ forall y x, y < h * scale -> x < wd * scale ->
         pixel2 written y x = pixel2 scaled (h * scale - 1 - y) x
         /\ pixel2 written y x <> None.
Proof.
  intros Hread Hwf Hs Htif.
  destruct (scale_image_2d scale Hwf Hs) as (scaled & Hsc & Hss & Hsd & Hsw & _).
  destruct (np_flip0_2d Hsw Hss) as (written & Hfl & Hfs & Hfd & Hpix).
  exists scaled, written. split; [exact Hsc|]. split.
  - unfold process_file, bind. rewrite Hread.
    unfold lift, scale_data, ndim. rewrite Hs. cbn [length Nat.eqb]. rewrite Hsc.
    unfold write_output. rewrite (tif_not_mrc _ Htif), Htif.
    unfold bind, lift. rewrite Hfl. reflexivity.
  - split; [exact Hfs|]. split; [congruence|].
    intros y x Hy Hx. split; [now apply Hpix|].
    rewrite Hpix by assumption.
    apply (pixel2_defined (h := h * scale) (w := wd * scale));
      try assumption. lia.
Qed.

(** A 2-by-1 image with rows 5 and 9, scaled by 2 and flipped: the rows
    of 9 come first, so the flip is not the identity. *)
Lemma C10_witness :
  let img := mk_ndarray UInt8 [2; 1] [5; 9]%Z in
  let w := world_of [(str "i.tif", img)] in
  exists written,
    files (snd (process_file (str "i.tif") (str "o.tif") 2 (str "lzw") true w))
          (str "o.tif") = Some written
    /\ arr_shape written = [4; 2]
    /\ pixel2 written 0 0 = Some 9%Z
    /\ pixel2 written 3 1 = Some 5%Z.
Proof.
  intros img w.
  destruct (@C10_flip_reverses_image_rows
              (str "i.tif") (str "o.tif") 2 (str "lzw")
              w (logged w (EvImread (str "i.tif"))) img 2 1)
    as (scaled & written & Hsc & Hrun & Hsh & _ & Hpix).
  - reflexivity.
  - reflexivity.
  - reflexivity.
  - reflexivity.
  - exists written. rewrite Hrun. cbn [snd logged stored files].
    rewrite pystr_eqb_refl. split; [reflexivity|]. split; [exact Hsh|].
    vm_compute in Hsc. injection Hsc as <-.
    split.
    + now rewrite (proj1 (Hpix 0 0 ltac:(simpl; lia) ltac:(simpl; lia))).
    + now rewrite (proj1 (Hpix 3 1 ltac:(simpl; lia) ltac:(simpl; lia))).
Defined.

(* ================================================================== *)
(** * C9: version 1 against version 2 on frame stacks *)
(* ================================================================== *)

Lemma v1_scale_frames_eq (a proc : ndarray) (f i n : nat) :
  V1.scale_frames a proc f i n = scale_frames a proc f i n.
Proof.
  revert proc i. induction n as [|n IH]; intros proc i; [reflexivity|].
  cbn [V1.scale_frames scale_frames].
  destruct (getitem a i) as [frame|e]; [|reflexivity]. cbn [res_bind].
  change (V1.scale_image frame f) with (scale_image frame f).
  destruct (scale_image frame f) as [scaled|e]; [|reflexivity]. cbn [res_bind].
  destruct (setitem proc i scaled) as [proc'|e]; [|reflexivity]. cbn [res_bind].
  apply IH.
Qed.

Lemma v1_scale_stack_eq (a : ndarray) (f : nat) :
  V1.scale_stack a f = scale_stack a f.
Proof.
  unfold V1.scale_stack, scale_stack.
  destruct (shape_at a 0); [|reflexivity].
  destruct (shape_at a 1); [|reflexivity].
  destruct (shape_at a 2); [|reflexivity].
  cbn [res_bind]. apply v1_scale_frames_eq.
Qed.

(** C9.  Take an input file that version 1 reads (".mrc", ".mrcs", ".tif"
    or ".tiff"), holding a well-formed rank-3 buffer, and an output path
    ending in ".tif"/".tiff".  Then [process_stack] of version 1 and
    [process_file] of version 2 with compression "lzw" and flip false
    both return normally, compute one and the same processed array (so
    shape, element type and samples agree), hand that array to the TIFF
    encoder with "lzw" as their only write, and leave the same files. *)
Theorem C9_v1_v2_same_processed_stack
        (input_file output_file : pystr) (scale : nat) (w : world) (a : ndarray) :
  endswith input_file (str ".mrc") || endswith input_file (str ".mrcs")
  || (endswith input_file (str ".tif") || endswith input_file (str ".tiff")) = true ->
  files w input_file = Some a ->
  well_formed a -> ndim a = 3 ->
  endswith output_file (str ".tif") || endswith output_file (str ".tiff") = true ->
  exists processed w_v1 w_v2,
    V1.scale_stack a scale = Ok processed
    /\ scale_data a scale = Ok processed
    /\ V1.process_stack input_file output_file scale w = (Ok tt, w_v1)
    /\ process_file input_file output_file scale (str "lzw") false w = (Ok tt, w_v2)
    /\ files w_v1 = files w_v2
    /\ files w_v1 output_file = Some processed
    /\ filter is_write (log w_v1)
       = filter is_write (log w) ++ [EvImwrite output_file processed (str "lzw")]
    /\ filter is_write (log w_v2)
       = filter is_write (log w) ++ [EvImwrite output_file processed (str "lzw")].
Proof.
  intros Hin Hfile Hwf Hnd Htif.
  destruct (ndim3_shape _ Hnd) as (n & h & wd & Hs).
  destruct (scale_stack_3d scale Hwf Hs) as (processed & Ho & _).
  exists processed.
  assert (Hmrc_out := tif_not_mrc _ Htif).
  assert (Hlog : forall e1 e2,
             is_write e1 = false -> is_write e2 = false ->
             filter is_write
                    (((log w ++ [e1])
                      ++ [EvImwrite output_file processed (str "lzw")]) ++ [e2])
             = filter is_write (log w)
               ++ [EvImwrite output_file processed (str "lzw")]).
  { intros e1 e2 H1 H2. rewrite !filter_app. simpl. rewrite H1, H2.
    now rewrite !app_nil_r. }
  destruct (endswith input_file (str ".mrc") || endswith input_file (str ".mrcs"))
    eqn:Hmrc.
  - do 2 eexists.
    split; [now rewrite v1_scale_stack_eq|].
    split; [unfold scale_data; rewrite Hnd; exact Ho|].
    split.
    { unfold V1.process_stack, bind. rewrite Hmrc, mrc_read_run, Hfile.
      unfold lift. rewrite v1_scale_stack_eq, Ho, Hmrc_out, Htif.
      reflexivity. }
    split.
    { unfold process_file, bind, read_input. rewrite Hmrc, mrc_read_run, Hfile.
      unfold lift, scale_data. rewrite Hnd. cbn [Nat.eqb]. rewrite Ho.
      unfold write_output. rewrite Hmrc_out, Htif. reflexivity. }
    cbn [files log logged]. split; [reflexivity|].
    split; [now rewrite pystr_eqb_refl|].
    split; apply Hlog; reflexivity.
  - cbn [orb] in Hin.
    do 2 eexists.
    split; [now rewrite v1_scale_stack_eq|].
    split; [unfold scale_data; rewrite Hnd; exact Ho|].
    split.
    { unfold V1.process_stack, bind. rewrite Hmrc, Hin, imread_run, Hfile.
      unfold lift. rewrite v1_scale_stack_eq, Ho, Hmrc_out, Htif.
      reflexivity. }
    split.
    { unfold process_file, bind, read_input. rewrite Hmrc, Hin.
      cbn [orb]. rewrite imread_run, Hfile.
      unfold lift, scale_data. rewrite Hnd. cbn [Nat.eqb]. rewrite Ho.
      unfold write_output. rewrite Hmrc_out, Htif. reflexivity. }
    cbn [files log logged]. split; [reflexivity|].
    split; [now rewrite pystr_eqb_refl|].
    split; apply Hlog; reflexivity.
Qed.

(** Both versions on a two-frame ".mrcs" stack written to ".tiff". *)
Lemma C9_witness :
  let stack := mk_ndarray Int16 [2; 1; 2] [1; 2; 3; 4]%Z in
  let w := world_of [(str "s.mrcs", stack)] in
  exists processed,
    V1.scale_stack stack 2 = Ok processed
    /\ scale_data stack 2 = Ok processed
    /\ fst (V1.process_stack (str "s.mrcs") (str "s.tiff") 2 w) = Ok tt
    /\ fst (process_file (str "s.mrcs") (str "s.tiff") 2 (str "lzw") false w) = Ok tt.
Proof.
  intros stack w.
  destruct (@C9_v1_v2_same_processed_stack
              (str "s.mrcs") (str "s.tiff") 2 w stack)
    as (processed & w1 & w2 & H1 & H2 & H3 & H4 & _).
  - reflexivity.
  - reflexivity.
  - reflexivity.
  - reflexivity.
  - reflexivity.
  - exists processed. rewrite H3, H4. auto.
Defined.

(* ================================================================== *)
(** * The path resolver *)
(* ================================================================== *)

Lemma splitext_app (p : pystr) : fst (splitext p) ++ snd (splitext p) = p.
Proof.
  unfold splitext.
  destruct (rfind ch_dot p >? rfind ch_sep p)%Z; [|apply app_nil_r].
  destruct (has_non_dot_before _ _ _); [|apply app_nil_r].
  apply firstn_skipn.
Qed.

Lemma build_arguments_outputs
      (file_list : list pystr) (output_dir : pystr) (scale : nat)
      (compression : pystr) (flip_tif : option bool)
      (force_tif force_mrc force_jpg keep_basename : bool) :
  map j_output (build_arguments file_list output_dir scale compression flip_tif
                                force_tif force_mrc force_jpg keep_basename)
  = map (directory_output output_dir scale force_tif force_mrc force_jpg
                          keep_basename) file_list.
Proof.
  revert flip_tif. induction file_list as [|f rest IH]; intros flip_tif;
    [reflexivity|].
  cbn [build_arguments map j_output]. now rewrite IH.
Qed.

(** Single-file mode: a force flag decides the extension, the last of
    [force_tif], [force_mrc], [force_jpg] that is set winning. *)
Lemma force_output_ext (a : args) (output : pystr) :
  (a_force_jpg a = true ->
   endswith (force_output a output) (str ".jpg") = true)
  /\ (a_force_jpg a = false -> a_force_mrc a = true ->
      endswith (force_output a output) (str ".mrc") = true)
  /\ (a_force_jpg a = false -> a_force_mrc a = false -> a_force_tif a = true ->
      endswith (force_output a output) (str ".tif") = true).
Proof.
  unfold force_output, replace_ext.
  repeat split; intros; repeat match goal with H : _ = _ |- _ => rewrite H end;
    apply endswith_app.
Qed.

(** In a batch with the flip flag unset, every job gets the value resolved
    for the first entry. *)
Lemma build_arguments_flip_resolved
      (file_list : list pystr) (output_dir : pystr) (scale : nat)
      (compression : pystr) (b : bool)
      (force_tif force_mrc force_jpg keep_basename : bool) :
  Forall (fun j => j_flip j = b)
         (build_arguments file_list output_dir scale compression (Some b)
                          force_tif force_mrc force_jpg keep_basename).
Proof.
  induction file_list as [|f rest IH]; [constructor|].
  cbn [build_arguments resolve_flip]. constructor; [reflexivity|exact IH].
Qed.

Lemma build_arguments_flip_of_first
      (first : pystr) (rest : list pystr) (output_dir : pystr) (scale : nat)
      (compression : pystr)
      (force_tif force_mrc force_jpg keep_basename : bool) :
  Forall (fun j =>
            j_flip j
            = auto_flip first
                (directory_output output_dir scale force_tif force_mrc force_jpg
                                  keep_basename first))
         (build_arguments (first :: rest) output_dir scale compression None
                          force_tif force_mrc force_jpg keep_basename).
Proof.
  cbn [build_arguments resolve_flip]. constructor; [reflexivity|].
  apply build_arguments_flip_resolved.
Qed.

(* ================================================================== *)
(** * C2: the default of the flip flag *)
(* ================================================================== *)

(** C2 (defect in [process_directory]).  In single-file mode an unset flip
    flag resolves to "input is MRC-family and output is TIFF-family".  In
    [process_directory] the loop assigns the resolved value to [flip_tif]
    itself, so from the second entry on the flag is no longer unset: for
    the listing "in/a.tif", "in/b.mrc" with [force_tif], the second job
    carries flip = false although its own paths (b.mrc to b_PASR_2x.tif)
    resolve to true, and the whole run writes b's rows unflipped. *)
Theorem C2_batch_flip_not_per_entry :
  let jobs := build_arguments [str "in/a.tif"; str "in/b.mrc"] (str "out") 2
                              (str "lzw") None true false false false in
  map j_output jobs = [str "out/a_PASR_2x.tif"; str "out/b_PASR_2x.tif"]
  /\ map j_flip jobs = [false; false]
  /\ map (fun j => auto_flip (j_input j) (j_output j)) jobs = [false; true]
  /\ j_flip (main_job (mk_args (str "in/b.mrc") 2 None (str "lzw") 1 false None
                               true false false)) = true
  /\ filter is_write
            (log (snd (process_directory (str "in") (str "out") 2 (str "lzw")
                                         None true false false 2 false
                                         batch_world)))
     = [EvImwrite (str "out/a_PASR_2x.tif")
                  (mk_ndarray UInt8 [2; 2] [7; 7; 7; 7]%Z) (str "lzw");
        EvImwrite (str "out/b_PASR_2x.tif")
                  (mk_ndarray UInt8 [4; 2] [5; 5; 5; 5; 9; 9; 9; 9]%Z)
                  (str "lzw")].
Proof. vm_compute. repeat split; reflexivity. Qed.

(* ================================================================== *)
(** * C3: matching the extension *)
(* ================================================================== *)

(** C3 (defect in [process_file]).  [process_file] compares extensions
    with [endswith] on the path as given, so an upper-case extension is not
    recognised: "X.MRC" raises the unsupported-input error, and a
    ".TIF" output raises the unsupported-output error, although the flip
    resolution in the same script lower-cases both paths and does treat
    "X.MRC" as MRC-family and "X_PASR_2x.TIF" as TIFF-family. *)
Theorem C3_extension_match_is_case_sensitive :
  let img := mk_ndarray UInt8 [1; 2] [3; 4]%Z in
  let w := world_of [(str "X.MRC", img); (str "x.tif", img)] in
  fst (process_file (str "X.MRC") (str "X_PASR_2x.tif") 2 (str "lzw") true w)
  = Raise (ValueError err_input)
  /\ fst (process_file (str "x.tif") (str "x_PASR_2x.TIF") 2 (str "lzw") false w)
     = Raise (ValueError err_output)
  /\ auto_flip (str "X.MRC") (str "X_PASR_2x.TIF") = true
  /\ fst (process_file (str "x.tif") (str "x_PASR_2x.tif") 2 (str "lzw") false w)
     = Ok tt.
Proof. vm_compute. repeat split; reflexivity. Qed.

(* ================================================================== *)
(** * C6: forcing the output extension *)
(* ================================================================== *)

(** C6 (defect in [process_directory]).  In single-file mode the force
    flags are applied after the default name, with or without
    [keep_basename], [force_jpg] last.  In [process_directory] the name is
    chosen by one if/elif chain headed by [keep_basename]: with
    [keep_basename] and [force_tif] the entry "in/b.mrc" keeps ".mrc" and
    is written by the MRC codec, and with [force_tif] and [force_jpg]
    together the batch takes ".tif" where the single-file path takes
    ".jpg". *)
Theorem C6_batch_force_ignored_with_keep_basename :
  directory_output (str "out") 2 true false false true (str "in/b.mrc")
  = str "out/b.mrc"
  /\ j_output (main_job (mk_args (str "in/b.mrc") 2 None (str "lzw") 1 true None
                                 true false false))
     = str "in/b.tif"
  /\ filter is_write
            (log (snd (process_directory (str "in") (str "out") 2 (str "lzw")
                                         None true false false 2 true
                                         batch_world)))
     = [EvImwrite (str "out/a.tif")
                  (mk_ndarray UInt8 [2; 2] [7; 7; 7; 7]%Z) (str "lzw");
        EvMrcWrite (str "out/b.mrc")
                   (mk_ndarray UInt8 [4; 2] [5; 5; 5; 5; 9; 9; 9; 9]%Z)]
  /\ directory_output (str "out") 2 true false true false (str "in/b.mrc")
     = str "out/b_PASR_2x.tif"
  /\ j_output (main_job (mk_args (str "in/b.mrc") 2 None (str "lzw") 1 false None
                                 true false true))
     = str "in/b_PASR_2x.jpg".
Proof. vm_compute. repeat split; reflexivity. Qed.

(* ================================================================== *)
(** * C7: the default output name *)
(* ================================================================== *)

(** C7.  With no explicit output, and [(base, ext) = splitext(input)] (so
    that base ++ ext is the input path): without [keep_basename] the
    default output is base ++ "_PASR_{scale}x" ++ ext, with [keep_basename]
    it is the input path itself; this default is the resolved output path
    when no force flag is set.  In a directory the same name is formed from
    the entry's file name and placed in the output directory.
    "frame.tif" at scale 3 gives "frame_PASR_3x.tif". *)
Theorem C7_default_output_name (a : args) :
  a_output a = None ->
  let base := fst (splitext (a_input a)) in
  let ext := snd (splitext (a_input a)) in
  base ++ ext = a_input a
  /\ (a_keep_basename a = false ->
      default_output a
      = base ++ str "_PASR_" ++ str_of_int (a_scale a) ++ str "x" ++ ext)
  /\ (a_keep_basename a = true -> default_output a = a_input a)
  /\ (a_force_tif a = false -> a_force_mrc a = false -> a_force_jpg a = false ->
      j_output (main_job a) = default_output a)
  /\ (forall output_dir,
        let name := basename (a_input a) in
        directory_output output_dir (a_scale a) false false false
                         (a_keep_basename a) (a_input a)
        = path_join output_dir
            (if a_keep_basename a then name
             else fst (splitext name) ++ str "_PASR_"
                  ++ str_of_int (a_scale a) ++ str "x" ++ snd (splitext name)))
  /\ default_output (mk_args (str "frame.tif") 3 None (str "lzw") 1 false None
                             false false false)
     = str "frame_PASR_3x.tif".
Proof.
  intros Hout base ext.
  split; [apply splitext_app|].
  unfold default_output. rewrite Hout.
  fold base ext. rewrite (surjective_pairing (splitext (a_input a))).
  fold base ext.
  split.
  { intros ->. unfold pasr_suffix. now rewrite <- !app_assoc. }
  split.
  { intros ->. apply splitext_app. }
  split.
  { intros Ht Hm Hj. unfold main_job, force_output. cbn [j_output].
    rewrite Ht, Hm, Hj. unfold default_output. rewrite Hout.
    now rewrite (surjective_pairing (splitext (a_input a))). }
  split; [|reflexivity].
  intros output_dir. unfold directory_output.
  set (name := basename (a_input a)).
  rewrite (surjective_pairing (splitext name)).
  destruct (a_keep_basename a).
  - now rewrite splitext_app.
  - unfold pasr_suffix. now rewrite <- !app_assoc.
Qed.

(** "data/frame.tif" at scale 3. *)
Lemma C7_witness :
  j_output (main_job (mk_args (str "data/frame.tif") 3 None (str "lzw") 1 false
                              None false false false))
  = str "data/frame_PASR_3x.tif".
Proof.
  destruct (@C7_default_output_name
              (mk_args (str "data/frame.tif") 3 None (str "lzw") 1 false None
                       false false false) eq_refl)
    as (_ & Hdef & _ & Hres & _).
  rewrite (Hres eq_refl eq_refl eq_refl), (Hdef eq_refl). reflexivity.
Defined.

(* ================================================================== *)
(** * splitext, basename and join on file names *)
(* ================================================================== *)

Lemma rfind_from_absent (c : ascii) (s : pystr) (i : nat) (found : Z) :
  ~ In c s -> rfind_from c s i found = found.
Proof.
  revert i found. induction s as [|a t IH]; intros i found Hn; [reflexivity|].
  cbn [rfind_from].
  destruct (Ascii.eqb a c) eqn:E.
  - apply Ascii.eqb_eq in E. subst. exfalso. apply Hn. now left.
  - apply IH. intros H. apply Hn. now right.
Qed.

Lemma rfind_from_last (c : ascii) (pre post : pystr) (i : nat) (found : Z) :
  ~ In c post ->
  rfind_from c (pre ++ c :: post) i found = Z.of_nat (i + length pre).
Proof.
  intros Hn. revert i found. induction pre as [|a pre IH]; intros i found.
  - cbn [app rfind_from length]. rewrite Ascii.eqb_refl, Nat.add_0_r.
    now apply rfind_from_absent.
  - cbn [app rfind_from length]. rewrite IH. f_equal. lia.
Qed.

Lemma rfind_absent (c : ascii) (s : pystr) : ~ In c s -> rfind c s = (-1)%Z.
Proof. apply rfind_from_absent. Qed.

Lemma rfind_last (c : ascii) (pre post : pystr) :
  ~ In c post -> rfind c (pre ++ c :: post) = Z.of_nat (length pre).
Proof. intros H. unfold rfind. now rewrite rfind_from_last. Qed.

(** A string that contains [c] splits at the last [c]. *)
Lemma split_at_last (c : ascii) (s : pystr) :
  In c s -> exists pre post, s = pre ++ c :: post /\ ~ In c post.
Proof.
  induction s as [|a t IH]; intros H; [contradiction|].
  destruct (in_dec ascii_dec c t) as [Ht|Ht].
  - destruct (IH Ht) as (pre & post & -> & Hp).
    now exists (a :: pre), post.
  - destruct H as [->|H]; [|contradiction].
    now exists [], t.
Qed.

Lemma split_at_last_unique (c : ascii) (l1 r1 l2 r2 : pystr) :
  l1 ++ c :: r1 = l2 ++ c :: r2 -> ~ In c r1 -> ~ In c r2 ->
  l1 = l2 /\ r1 = r2.
Proof.
  intros H H1 H2.
  destruct (app_inj_pivot _ _ _ _ _ H) as [[[_ F]|[F _]]|E]; tauto.
Qed.

Lemma has_non_dot_before_spec (done pre rest : pystr) :
  has_non_dot_before (done ++ pre ++ rest) (length done) (length pre)
  = existsb (fun c => negb (Ascii.eqb c ch_dot)) pre.
Proof.
  revert done. induction pre as [|a pre IH]; intros done; [reflexivity|].
  cbn [length has_non_dot_before existsb app].
  rewrite nth_middle.
  destruct (negb (Ascii.eqb a ch_dot)); [reflexivity|].
  cbn [orb].
  replace (done ++ a :: pre ++ rest) with ((done ++ [a]) ++ pre ++ rest)
    by (now rewrite <- app_assoc).
  replace (S (length done)) with (length (done ++ [a]))
    by (rewrite length_app; simpl; lia).
  apply IH.
Qed.

(** [splitext] on a file name (no separator): without a dot there is no
    extension; otherwise the name splits at its last dot unless only dots
    come before it. *)
Lemma splitext_no_dot (p : pystr) :
  ~ In ch_sep p -> ~ In ch_dot p -> splitext p = (p, []).
Proof.
  intros Hs Hd. unfold splitext.
  now rewrite (@rfind_absent _ _ Hs), (@rfind_absent _ _ Hd).
Qed.

Lemma splitext_last_dot (pre post : pystr) :
  ~ In ch_sep (pre ++ ch_dot :: post) -> ~ In ch_dot post ->
  splitext (pre ++ ch_dot :: post)
  = if existsb (fun c => negb (Ascii.eqb c ch_dot)) pre
    then (pre, ch_dot :: post)
    else (pre ++ ch_dot :: post, []).
Proof.
  intros Hs Hd. unfold splitext.
  rewrite (@rfind_absent _ _ Hs), (@rfind_last _ pre _ Hd).
  replace (Z.of_nat (length pre) >? -1)%Z with true
    by (symmetry; apply Z.gtb_lt; lia).
  change (Z.to_nat (-1 + 1)) with 0. rewrite Nat2Z.id, Nat.sub_0_r.
  pose proof (has_non_dot_before_spec [] pre (ch_dot :: post)) as Hloop.
  cbn [app length] in Hloop. rewrite Hloop.
  destruct (existsb _ pre); [|reflexivity].
  rewrite firstn_app, firstn_all, Nat.sub_diag. cbn [firstn].
  rewrite app_nil_r.
  rewrite skipn_app, skipn_all, Nat.sub_diag. reflexivity.
Qed.

Lemma all_dots_no_other (pre : pystr) (c : ascii) :
  existsb (fun c => negb (Ascii.eqb c ch_dot)) pre = false ->
  In c pre -> c = ch_dot.
Proof.
  intros H Hin.
  destruct (Ascii.eqb c ch_dot) eqn:E; [now apply Ascii.eqb_eq|].
  assert (existsb (fun c => negb (Ascii.eqb c ch_dot)) pre = true).
  { apply existsb_exists. exists c. now rewrite E. }
  congruence.
Qed.

(** Inserting a dot-free text before the extension is injective on file
    names. *)
Lemma with_suffix_inj (mid p q : pystr) :
  ~ In ch_dot mid ->
  ~ In ch_sep p -> ~ In ch_sep q ->
  with_suffix mid p = with_suffix mid q -> p = q.
Proof.
  intros Hmid Hp Hq. unfold with_suffix.
  assert (no_ext_split :
    forall pre post r,
      ~ In ch_dot post -> ~ In ch_dot r ->
      existsb (fun c => negb (Ascii.eqb c ch_dot)) pre = true ->
      r ++ mid <> pre ++ mid ++ ch_dot :: post).
  { intros pre post r Hpost Hr Hex E.
    assert (Hin : In ch_dot (r ++ mid))
      by (rewrite E, app_assoc; apply in_elt).
    apply in_app_or in Hin. tauto. }
  assert (all_dots_split :
    forall pre post pre' post',
      ~ In ch_dot post -> ~ In ch_dot post' ->
      existsb (fun c => negb (Ascii.eqb c ch_dot)) pre = true ->
      existsb (fun c => negb (Ascii.eqb c ch_dot)) pre' = false ->
      (pre' ++ ch_dot :: post') ++ mid <> pre ++ mid ++ ch_dot :: post).
  { intros pre post pre' post' Hpost Hpost' Hex Hall E.
    rewrite <- app_assoc in E. cbn [app] in E. rewrite app_assoc in E.
    apply split_at_last_unique in E as [E _]; [| |exact Hpost].
    - apply existsb_exists in Hex as (c & Hc & Hnd).
      assert (c = ch_dot).
      { apply (@all_dots_no_other pre' c Hall). rewrite E.
        apply in_or_app. now left. }
      subst c. now rewrite Ascii.eqb_refl in Hnd.
    - intros Hin. apply in_app_or in Hin. tauto. }
  destruct (in_dec ascii_dec ch_dot p) as [Hdp|Hdp];
    destruct (in_dec ascii_dec ch_dot q) as [Hdq|Hdq].
  - destruct (split_at_last _ _ Hdp) as (pre1 & post1 & -> & Hn1).
    destruct (split_at_last _ _ Hdq) as (pre2 & post2 & -> & Hn2).
    rewrite (@splitext_last_dot pre1 _ Hp Hn1), (@splitext_last_dot pre2 _ Hq Hn2).
    destruct (existsb _ pre1) eqn:E1; destruct (existsb _ pre2) eqn:E2;
      cbn [fst snd]; rewrite ?app_nil_r; intros E.
    + rewrite !app_assoc in E.
      apply split_at_last_unique in E as [E ->]; try assumption.
      apply app_inv_tail in E. now subst.
    + symmetry in E. now apply all_dots_split in E.
    + now apply all_dots_split in E.
    + now apply app_inv_tail in E.
  - destruct (split_at_last _ _ Hdp) as (pre1 & post1 & -> & Hn1).
    rewrite (@splitext_last_dot pre1 _ Hp Hn1), (@splitext_no_dot _ Hq Hdq).
    destruct (existsb _ pre1) eqn:E1; cbn [fst snd]; rewrite ?app_nil_r;
      intros E.
    + symmetry in E. now apply no_ext_split in E.
    + now apply app_inv_tail in E.
  - destruct (split_at_last _ _ Hdq) as (pre2 & post2 & -> & Hn2).
    rewrite (@splitext_last_dot pre2 _ Hq Hn2), (@splitext_no_dot _ Hp Hdp).
    destruct (existsb _ pre2) eqn:E2; cbn [fst snd]; rewrite ?app_nil_r;
      intros E.
    + now apply no_ext_split in E.
    + now apply app_inv_tail in E.
  - rewrite (@splitext_no_dot _ Hp Hdp), (@splitext_no_dot _ Hq Hdq).
    cbn [fst snd]. rewrite !app_nil_r. apply app_inv_tail.
Qed.

Lemma basename_no_sep (p : pystr) : ~ In ch_sep (basename p).
Proof.
  unfold basename.
  destruct (in_dec ascii_dec ch_sep p) as [H|H].
  - destruct (split_at_last _ _ H) as (pre & post & -> & Hn).
    rewrite (@rfind_last _ pre _ Hn).
    replace (Z.to_nat (Z.of_nat (length pre) + 1)) with (length pre + 1) by lia.
    rewrite skipn_app, skipn_all2 by lia.
    replace (length pre + 1 - length pre) with 1 by lia. exact Hn.
  - rewrite (@rfind_absent _ _ H). exact H.
Qed.

Lemma digits_plain (d : Decimal.uint) (c : ascii) :
  In c (list_ascii_of_string (NilEmpty.string_of_uint d)) ->
  c <> ch_dot /\ c <> ch_sep.
Proof.
  induction d; cbn [NilEmpty.string_of_uint list_ascii_of_string];
    intros H; [contradiction|..];
    (destruct H as [<-|H]; [split; discriminate|auto]).
Qed.

Lemma pasr_suffix_plain (scale : nat) (c : ascii) :
  In c (pasr_suffix scale) -> c <> ch_dot /\ c <> ch_sep.
Proof.
  unfold pasr_suffix, str_of_int, str. intros H.
  apply in_app_or in H as [H|H].
  { cbn in H. repeat (destruct H as [<-|H]; [split; discriminate|]).
    contradiction. }
  apply in_app_or in H as [H|H].
  - unfold NilZero.string_of_uint in H.
    destruct (Nat.to_uint scale) eqn:E;
      try (rewrite <- E in H; now apply digits_plain in H).
    cbn in H. destruct H as [<-|[]]. split; discriminate.
  - cbn in H. destruct H as [<-|[]]. split; discriminate.
Qed.

Lemma path_join_relative (d name : pystr) :
  ~ In ch_sep name -> path_join d name = join_prefix d ++ name.
Proof.
  intros Hn. unfold path_join, join_prefix.
  assert (Hs : startswith name [ch_sep] = false).
  { unfold startswith. destruct name as [|c t]; [reflexivity|].
    cbn [length firstn].
    destruct (pystr_eqb [c] [ch_sep]) eqn:E; [|reflexivity].
    apply pystr_eqb_true in E. injection E as ->. exfalso. apply Hn. now left. }
  rewrite Hs.
  destruct ((length d =? 0) || endswith d [ch_sep]); [reflexivity|].
  now rewrite <- app_assoc.
Qed.

Lemma stem_ext_no_sep (name : pystr) :
  ~ In ch_sep name ->
  ~ In ch_sep (fst (splitext name)) /\ ~ In ch_sep (snd (splitext name)).
Proof.
  intros Hn. rewrite <- (splitext_app name) in Hn.
  split; intros H; apply Hn, in_or_app; auto.
Qed.

(** The four shapes of [directory_output]. *)
Lemma directory_output_keep (output_dir : pystr) (scale : nat)
      (force_tif force_mrc force_jpg : bool) (input_file : pystr) :
  directory_output output_dir scale force_tif force_mrc force_jpg true input_file
  = join_prefix output_dir ++ basename input_file.
Proof.
  unfold directory_output.
  rewrite (surjective_pairing (splitext (basename input_file))).
  rewrite splitext_app. apply path_join_relative, basename_no_sep.
Qed.

Lemma directory_output_plain (output_dir : pystr) (scale : nat)
      (input_file : pystr) :
  directory_output output_dir scale false false false false input_file
  = join_prefix output_dir
    ++ with_suffix (pasr_suffix scale) (basename input_file).
Proof.
  unfold directory_output, with_suffix.
  rewrite (surjective_pairing (splitext (basename input_file))).
  destruct (@stem_ext_no_sep _ (basename_no_sep input_file)) as [H1 H2].
  apply path_join_relative. intros H.
  apply in_app_or in H as [H|H]; [tauto|].
  apply in_app_or in H as [H|H]; [|tauto].
  apply pasr_suffix_plain in H. tauto.
Qed.

Lemma directory_output_forced (output_dir : pystr) (scale : nat)
      (force_tif force_mrc force_jpg : bool) (input_file : pystr) :
  force_tif || force_mrc || force_jpg = true ->
  directory_output output_dir scale force_tif force_mrc force_jpg false input_file
  = join_prefix output_dir
    ++ stem input_file ++ pasr_suffix scale ++ forced_ext force_tif force_mrc.
Proof.
  intros Hf. unfold directory_output, forced_ext, stem.
  rewrite (surjective_pairing (splitext (basename input_file))).
  destruct (@stem_ext_no_sep _ (basename_no_sep input_file)) as [H1 _].
  assert (Hj : forall e, ~ In ch_sep e ->
             path_join output_dir
               (fst (splitext (basename input_file)) ++ pasr_suffix scale ++ e)
             = join_prefix output_dir
               ++ fst (splitext (basename input_file)) ++ pasr_suffix scale ++ e).
  { intros e He. apply path_join_relative. intros H.
    apply in_app_or in H as [H|H]; [tauto|].
    apply in_app_or in H as [H|H]; [|tauto].
    apply pasr_suffix_plain in H. tauto. }
  destruct force_tif; [apply Hj; cbn; intuition discriminate|].
  destruct force_mrc; [apply Hj; cbn; intuition discriminate|].
  destruct force_jpg; [apply Hj; cbn; intuition discriminate|].
  discriminate Hf.
Qed.

(* ================================================================== *)
(** * C5: distinct output paths *)
(* ================================================================== *)

(** C5 as stated fails: with [force_tif] the entries "in/a.tif" and
    "in/a.mrc" have distinct file names and the same output path
    "out/a_PASR_2x.tif". *)
Lemma C5_counterexample :
  ~ (forall (file_list : list pystr) (output_dir : pystr) (scale : nat)
            (compression : pystr) (flip_tif : option bool)
            (force_tif force_mrc force_jpg keep_basename : bool),
        NoDup (map basename file_list) ->
        NoDup (map j_output
                   (build_arguments file_list output_dir scale compression
                      flip_tif force_tif force_mrc force_jpg keep_basename))).
Proof.
  intros H.
  specialize (H [str "in/a.tif"; str "in/a.mrc"] (str "out") 2 (str "lzw") None
                true false false false).
  assert (Hin : NoDup (map basename [str "in/a.tif"; str "in/a.mrc"])).
  { vm_compute. constructor.
    - intros [E|[]]. discriminate E.
    - constructor; [intros []|constructor]. }
  specialize (H Hin). vm_compute in H.
  inversion H as [|x l Hnin _]. apply Hnin. now left.
Qed.

(** C5 (amended).  In a batch plan the output paths are pairwise distinct
    whenever the input file names are pairwise distinct, for every scale
    and output directory, provided no force flag takes effect, that is,
    [keep_basename] is set or none of [force_tif], [force_mrc],
    [force_jpg] is set.  When a force flag takes effect the extension is
    dropped, and the output paths are pairwise distinct whenever the file
    names without their extensions are. *)
Theorem C5_output_paths_distinct
        (file_list : list pystr) (output_dir : pystr) (scale : nat)
        (compression : pystr) (flip_tif : option bool)
        (force_tif force_mrc force_jpg keep_basename : bool) :
  let outputs :=
    map j_output
        (build_arguments file_list output_dir scale compression flip_tif
                         force_tif force_mrc force_jpg keep_basename) in
  (keep_basename = true \/ force_tif || force_mrc || force_jpg = false ->
   NoDup (map basename file_list) -> NoDup outputs)
  /\ (keep_basename = false -> force_tif || force_mrc || force_jpg = true ->
      NoDup (map stem file_list) -> NoDup outputs).
Proof.
  intros outputs. unfold outputs. rewrite build_arguments_outputs.
  split.
  - intros Hmode Hnd.
    destruct keep_basename.
    + rewrite (map_ext _ _ (directory_output_keep output_dir scale force_tif
                              force_mrc force_jpg)).
      rewrite <- (map_map basename (fun n => join_prefix output_dir ++ n)).
      apply NoDup_map_NoDup_ForallPairs; [|exact Hnd].
      intros x y _ _ E. now apply app_inv_head in E.
    + destruct Hmode as [Hk|Hf]; [discriminate|].
      apply orb_false_iff in Hf as [Hf ->].
      apply orb_false_iff in Hf as [-> ->].
      rewrite (map_ext _ _ (directory_output_plain output_dir scale)).
      rewrite <- (map_map basename
                    (fun n => join_prefix output_dir
                              ++ with_suffix (pasr_suffix scale) n)).
      apply NoDup_map_NoDup_ForallPairs; [|exact Hnd].
      intros x y Hx Hy E. apply app_inv_head in E.
      apply in_map_iff in Hx as (fx & <- & _).
      apply in_map_iff in Hy as (fy & <- & _).
      apply (@with_suffix_inj (pasr_suffix scale)); try apply basename_no_sep;
        [|exact E].
      intros Hd. apply pasr_suffix_plain in Hd. tauto.
  - intros -> Hf Hnd.
    rewrite (map_ext _ _ (fun f => @directory_output_forced output_dir scale
                                     force_tif force_mrc force_jpg f Hf)).
    rewrite <- (map_map stem
                  (fun s => join_prefix output_dir ++ s ++ pasr_suffix scale
                            ++ forced_ext force_tif force_mrc)).
    apply NoDup_map_NoDup_ForallPairs; [|exact Hnd].
    intros x y _ _ E. apply app_inv_head in E.
    now apply app_inv_tail in E.
Qed.

(** Without force flags "in/a.tif" and "in/a.mrc" get distinct outputs. *)
Lemma C5_witness :
  NoDup (map j_output
             (build_arguments [str "in/a.tif"; str "in/a.mrc"] (str "out") 2
                              (str "lzw") None false false false false)).
Proof.
  refine (proj1 (@C5_output_paths_distinct
                   [str "in/a.tif"; str "in/a.mrc"] (str "out") 2 (str "lzw")
                   None false false false false) _ _).
  - right. reflexivity.
  - vm_compute. constructor.
    + intros [E|[]]. discriminate E.
    + constructor; [intros []|constructor].
Defined.

(* ================================================================== *)
(** * Further properties of the file processor *)
(* ================================================================== *)

(** The scaling step succeeds on every well-formed buffer of rank 2 or 3. *)
Lemma scale_data_ok (a : ndarray) (f : nat) :
  well_formed a -> ndim a = 2 \/ ndim a = 3 ->
  exists out, scale_data a f = Ok out /\ well_formed out
              /\ ndim out = ndim a /\ arr_dtype out = arr_dtype a.
Proof.
  intros Hwf [H2|H3].
  - unfold ndim in H2.
    destruct (arr_shape a) as [|h [|w [|]]] eqn:Hs; try discriminate.
    destruct (@scale_image_2d a f h w Hwf Hs) as (out & Ho & Hos & Hod & Hw & _).
    exists out. unfold scale_data, ndim. rewrite Hs, Hos. cbn. auto.
  - destruct (ndim3_shape _ H3) as (n & h & w & Hs).
    destruct (@scale_stack_3d a f n h w Hwf Hs) as (out & Ho & Hos & Hod & Hw & _).
    exists out. unfold scale_data, ndim. rewrite Hs, Hos. cbn. auto.
Qed.

Lemma process_file_after_read
      (input_file output_file : pystr) (scale : nat) (compression : pystr)
      (flip_tif : bool) (w w1 : world) (a processed : ndarray) :
  read_input input_file w = (Ok a, w1) ->
  scale_data a scale = Ok processed ->
  process_file input_file output_file scale compression flip_tif w
  = write_output output_file a processed compression flip_tif w1.
Proof.
  intros Hr Hs. unfold process_file, bind, lift. now rewrite Hr, Hs.
Qed.

(** X1.  An input path that ends in none of ".mrc", ".mrcs", ".tif",
    ".tiff", ".jpg" makes [process_file] raise the unsupported-input error
    at once: no codec is called, nothing is printed, the world is as it
    was. *)
Theorem X1_unsupported_input_no_effect
        (input_file output_file : pystr) (scale : nat) (compression : pystr)
        (flip_tif : bool) (w : world) :
  endswith input_file (str ".mrc") = false ->
  endswith input_file (str ".mrcs") = false ->
  endswith input_file (str ".tif") = false ->
  endswith input_file (str ".tiff") = false ->
  endswith input_file (str ".jpg") = false ->
  process_file input_file output_file scale compression flip_tif w
  = (Raise (ValueError err_input), w).
Proof.
  intros H1 H2 H3 H4 H5. unfold process_file, bind, read_input.
  now rewrite H1, H2, H3, H4, H5.
Qed.

Lemma X1_witness :
  fst (process_file (str "notes.txt") (str "notes_PASR_2x.txt") 2 (str "lzw")
                    false batch_world)
  = Raise (ValueError err_input).
Proof.
  rewrite (@X1_unsupported_input_no_effect
             (str "notes.txt") (str "notes_PASR_2x.txt") 2 (str "lzw") false
             batch_world eq_refl eq_refl eq_refl eq_refl eq_refl).
  reflexivity.
Defined.

(** X2.  An output path that ends in none of the five extensions is only
    found out after the input has been read and scaled: [process_file] then
    raises the unsupported-output error, having written nothing. *)
Theorem X2_unsupported_output_after_read
        (input_file output_file : pystr) (scale : nat) (compression : pystr)
        (flip_tif : bool) (w w1 : world) (a : ndarray) :
  read_input input_file w = (Ok a, w1) ->
  well_formed a -> ndim a = 2 \/ ndim a = 3 ->
  endswith output_file (str ".mrc") = false ->
  endswith output_file (str ".mrcs") = false ->
  endswith output_file (str ".tif") = false ->
  endswith output_file (str ".tiff") = false ->
  endswith output_file (str ".jpg") = false ->
  process_file input_file output_file scale compression flip_tif w
  = (Raise (ValueError err_output), w1)
  /\ files w1 = files w
  /\ filter is_write (log w1) = filter is_write (log w).
Proof.
  intros Hr Hwf Hnd H1 H2 H3 H4 H5.
  destruct (@scale_data_ok a scale Hwf Hnd) as (p & Hp & _).
  destruct (read_input_ok _ _ Hr) as (_ & Hf & Hl).
  split; [|now split].
  rewrite (@process_file_after_read _ _ _ _ _ _ _ _ _ Hr Hp).
  unfold write_output. now rewrite H1, H2, H3, H4, H5.
Qed.

Lemma X2_witness :
  fst (process_file (str "in/a.tif") (str "out/a.png") 2 (str "lzw") false
                    batch_world)
  = Raise (ValueError err_output).
Proof.
  destruct (@X2_unsupported_output_after_read
              (str "in/a.tif") (str "out/a.png") 2 (str "lzw") false
              batch_world (logged batch_world (EvImread (str "in/a.tif")))
              (mk_ndarray UInt8 [1; 1] [7]%Z)
              eq_refl eq_refl (or_introl eq_refl)
              eq_refl eq_refl eq_refl eq_refl eq_refl)
    as (Hrun & _).
  now rewrite Hrun.
Defined.



(** X4.  For an output path ending in ".tif" or ".tiff" with the flip flag
    false, the array handed to the TIFF writer is the scaled array itself,
    together with the compression that was asked for. *)
Theorem X4_tif_output_unflipped
        (input_file output_file : pystr) (scale : nat) (compression : pystr)
        (w w1 : world) (a : ndarray) :
  read_input input_file w = (Ok a, w1) ->
  well_formed a -> ndim a = 2 \/ ndim a = 3 ->
  endswith output_file (str ".tif") || endswith output_file (str ".tiff") = true ->
  exists processed,
    scale_data a scale = Ok processed
    /\ process_file input_file output_file scale compression false w
       = (Ok tt,
          logged (stored (logged w1 (EvImwrite output_file processed compression))
                         output_file processed)
                 (EvPrint (msg_tif output_file compression
                                   (str "No flipping applied.")))).
Proof.
  intros Hr Hwf Hnd Ht.
  destruct (@scale_data_ok a scale Hwf Hnd) as (p & Hp & _).
  exists p. split; [exact Hp|].
  rewrite (@process_file_after_read _ _ _ _ _ _ _ _ _ Hr Hp).
  unfold write_output. rewrite (tif_not_mrc _ Ht), Ht. reflexivity.
Qed.

Lemma X4_witness :
  files (snd (process_file (str "in/b.mrc") (str "out/b.tiff") 2 (str "zlib")
                           false batch_world)) (str "out/b.tiff")
  = Some (mk_ndarray UInt8 [4; 2] [5; 5; 5; 5; 9; 9; 9; 9]%Z).
Proof.
  destruct (@X4_tif_output_unflipped
              (str "in/b.mrc") (str "out/b.tiff") 2 (str "zlib")
              batch_world (logged batch_world (EvMrcOpen (str "in/b.mrc")))
              (mk_ndarray UInt8 [2; 1] [5; 9]%Z)
              eq_refl eq_refl (or_introl eq_refl) eq_refl)
    as (p & Hp & Hrun).
  rewrite Hrun. vm_compute in Hp. injection Hp as <-. reflexivity.
Defined.

Lemma np_flip0_3d (a : ndarray) (n h w : nat) :
  well_formed a -> arr_shape a = [n; h; w] ->
  exists out,
    np_flip0 a = Ok out
    /\ arr_shape out = [n; h; w]
    /\ arr_dtype out = arr_dtype a
    /\ forall i y x, i < n -> y < h -> x < w ->
         pixel3 out i y x = pixel3 a (n - 1 - i) y x.
Proof.
  intros Hwf Hs. unfold well_formed in Hwf. rewrite Hs in Hwf. simpl in Hwf.
  rewrite Nat.mul_1_r in Hwf.
  unfold np_flip0. rewrite Hs. eexists. split; [reflexivity|].
  cbn [arr_shape arr_dtype]. split; [reflexivity|]. split; [reflexivity|].
  intros i y x Hi Hy Hx.
  rewrite (@pixel3_eq _ n h w) by (assumption || reflexivity).
  rewrite (@pixel3_eq a n h w) by (assumption || lia).
  cbn [arr_data]. simpl prod_shape. rewrite Nat.mul_1_r.
  assert (Hu : Forall (fun c => length c = h * w)
                      (List.rev (chunks (h * w) n (arr_data a)))).
  { apply Forall_rev, chunks_uniform. lia. }
  assert (Hk : y * w + x < h * w) by now apply index_bound.
  rewrite <- !Nat.add_assoc.
  rewrite (nth_error_concat_uniform i Hu Hk).
  rewrite nth_error_rev, length_chunks.
  apply Nat.ltb_lt in Hi as Hi'. rewrite Hi'.
  rewrite nth_error_chunks by lia.
  rewrite nth_error_chunk by exact Hk.
  f_equal. lia.
Qed.



(** X6.  For a rank-3 stack of shape (n, h, w) written to a ".tif"/".tiff"
    path with the flip flag true, the array handed to the TIFF writer has
    the shape of the scaled stack and its frame i is frame n-1-i of the
    scaled stack, sample for sample: on stacks the flip reverses the frame
    order and leaves every frame as it is. *)
Theorem X6_flip_reverses_frame_order
        (input_file output_file : pystr) (scale : nat) (compression : pystr)
        (w w1 : world) (a : ndarray) (n h wd : nat) :
  read_input input_file w = (Ok a, w1) ->
  well_formed a -> arr_shape a = [n; h; wd] ->
  endswith output_file (str ".tif") || endswith output_file (str ".tiff") = true ->
  exists scaled written,
    scale_data a scale = Ok scaled
    /\ process_file input_file output_file scale compression true w
       = (Ok tt,
          logged (stored (logged w1 (EvImwrite output_file written compression))
                         output_file written)
                 (EvPrint (msg_tif output_file compression
                                   (str "Flipping applied."))))
    /\ arr_shape written = [n; h * scale; wd * scale]
    /\ arr_dtype written = arr_dtype a
    /\ forall i y x, i < n -> y < h * scale -> x < wd * scale ->
         pixel3 written i y x = pixel3 scaled (n - 1 - i) y x.
Proof.
  intros Hr Hwf Hs Ht.
  destruct (@scale_stack_3d a scale n h wd Hwf Hs)
    as (scaled & Hsc & Hss & Hsd & Hsw & _).
  destruct (@np_flip0_3d scaled n (h * scale) (wd * scale) Hsw Hss)
    as (written & Hfl & Hfs & Hfd & Hpix).
  assert (Hp : scale_data a scale = Ok scaled).
  { unfold scale_data, ndim. rewrite Hs. exact Hsc. }
  exists scaled, written. split; [exact Hp|]. split.
  - rewrite (@process_file_after_read _ _ _ _ _ _ _ _ _ Hr Hp).
    unfold write_output. rewrite (tif_not_mrc _ Ht), Ht.
    unfold bind, lift. rewrite Hfl. reflexivity.
  - split; [exact Hfs|]. split; [congruence|exact Hpix].
Qed.

Lemma X6_witness :
  exists written,
    files (snd (process_file (str "in/s.mrc") (str "out/s.tif") 2 (str "lzw") true
            (world_of [(str "in/s.mrc", mk_ndarray UInt8 [2; 1; 1] [5; 9]%Z)])))
          (str "out/s.tif")
    = Some written
    /\ arr_shape written = [2; 2; 2]
    /\ pixel3 written 0 1 1 = Some 9%Z
    /\ pixel3 written 1 0 0 = Some 5%Z.
Proof.
  set (w := world_of [(str "in/s.mrc", mk_ndarray UInt8 [2; 1; 1] [5; 9]%Z)]).
  destruct (@X6_flip_reverses_frame_order
              (str "in/s.mrc") (str "out/s.tif") 2 (str "lzw")
              w (logged w (EvMrcOpen (str "in/s.mrc")))
              (mk_ndarray UInt8 [2; 1; 1] [5; 9]%Z) 2 1 1
              eq_refl eq_refl eq_refl eq_refl)
    as (scaled & written & Hsc & Hrun & Hsh & _ & Hpix).
  exists written. rewrite Hrun. cbn [snd logged stored files].
  rewrite pystr_eqb_refl. split; [reflexivity|]. split; [exact Hsh|].
  vm_compute in Hsc. injection Hsc as <-.
  split.
  - now rewrite (Hpix 0 1 1 ltac:(lia) ltac:(simpl; lia) ltac:(simpl; lia)).
  - now rewrite (Hpix 1 0 0 ltac:(lia) ltac:(simpl; lia) ltac:(simpl; lia)).
Defined.








(* ================================================================== *)
(** * Further properties of the batch coordinator *)
(* ================================================================== *)








(** X9.  All jobs of one batch carry the same flip value: the [flip_tif]
    argument when it is given, and otherwise the value resolved from the
    paths of the first entry of the listing. *)
Theorem X9_batch_flip_uniform
        (file_list : list pystr) (output_dir : pystr) (scale : nat)
        (compression : pystr) (flip_tif : option bool)
        (force_tif force_mrc force_jpg keep_basename : bool) :
  let jobs := build_arguments file_list output_dir scale compression flip_tif
                              force_tif force_mrc force_jpg keep_basename in
  map j_input jobs = file_list
  /\ (forall b, flip_tif = Some b -> Forall (fun j => j_flip j = b) jobs)
  /\ (forall first rest, flip_tif = None -> file_list = first :: rest ->
        Forall (fun j =>
                  j_flip j
                  = auto_flip first
                      (directory_output output_dir scale force_tif force_mrc
                                        force_jpg keep_basename first))
               jobs).
Proof.
  cbn zeta. split; [|split].
  - revert flip_tif. induction file_list as [|f rest IH]; intros flip_tif;
      [reflexivity|].
    cbn [build_arguments map j_input]. now rewrite IH.
  - intros b ->. apply build_arguments_flip_resolved.
  - intros first rest -> ->. apply build_arguments_flip_of_first.
Qed.

Lemma run_tasks_nil_ok (w : world) : run_tasks [] None w = (Ok None, w).
Proof. reflexivity. Qed.

(** X10.  On a directory whose listing is empty, [process_directory] with
    at least one worker reads and writes nothing and returns normally; its
    only possible effect is creating the output directory when that does
    not exist yet. *)
Theorem X10_empty_directory
        (input_dir output_dir : pystr) (scale : nat) (compression : pystr)
        (flip_tif : option bool) (force_tif force_mrc force_jpg : bool)
        (n_cores : nat) (keep_basename : bool) (w : world) :
  globbed w (path_join input_dir (str "*")) = [] ->
  1 <= n_cores ->
  let r := process_directory input_dir output_dir scale compression flip_tif
                             force_tif force_mrc force_jpg n_cores
                             keep_basename w in
  fst r = Ok tt
  /\ files (snd r) = files w
  /\ log (snd r)
     = log w ++ (if exists_path w output_dir then []
                 else [EvMakedirs output_dir])
  /\ exists_path (snd r) output_dir = true.
Proof.
  intros Hg Hn. cbn zeta.
  unfold process_directory, bind, glob, ensure_dir. rewrite Hg.
  cbn [build_arguments]. unfold pool_starmap.
  replace (n_cores <? 1) with false by (symmetry; apply Nat.ltb_ge; lia).
  cbn [length]. rewrite Nat.Div0.div_0_l, Nat.Div0.mod_0_l.
  cbn [Nat.eqb Nat.add get_tasks]. unfold bind.
  destruct (exists_path w output_dir) eqn:He; rewrite run_tasks_nil_ok;
    cbn [fst snd files log exists_path ret].
  - rewrite app_nil_r. auto.
  - rewrite pystr_eqb_refl. auto.
Qed.

Lemma X10_witness :
  fst (process_directory (str "empty") (str "out") 2 (str "lzw") None
                         false false false 4 false (world_of [])) = Ok tt
  /\ log (snd (process_directory (str "empty") (str "out") 2 (str "lzw") None
                                 false false false 4 false (world_of [])))
     = [EvMakedirs (str "out")].
Proof.
  destruct (@X10_empty_directory
              (str "empty") (str "out") 2 (str "lzw") None false false false 4
              false (world_of []) eq_refl ltac:(lia))
    as (H1 & _ & H3 & _).
  split; [exact H1|exact H3].
Defined.

(** [os.path.join(d, name)] is empty or ends with a separator before a
    relative [name]. *)
Lemma join_prefix_shape (d : pystr) :
  join_prefix d = [] \/ exists pre, join_prefix d = pre ++ [ch_sep].
Proof.
  unfold join_prefix.
  destruct (length d =? 0) eqn:El.
  - left. apply Nat.eqb_eq in El. cbn [orb]. now apply length_zero_iff_nil.
  - cbn [orb]. destruct (endswith d [ch_sep]) eqn:Ee.
    + right. apply endswith_true in Ee as [Ee _].
      exists (firstn (length d - length [ch_sep]) d).
      transitivity (firstn (length d - length [ch_sep]) d
                    ++ skipn (length d - length [ch_sep]) d);
        [symmetry; apply firstn_skipn|now rewrite Ee].
    + right. now exists d.
Qed.

(** [basename] undoes [join] on a file name. *)
Lemma basename_path_join (d name : pystr) :
  ~ In ch_sep name -> basename (path_join d name) = name.
Proof.
  intros Hn. rewrite path_join_relative by exact Hn.
  unfold basename.
  destruct (join_prefix_shape d) as [->|(pre & ->)].
  - cbn [app]. now rewrite (@rfind_absent _ _ Hn).
  - rewrite <- app_assoc. cbn [app].
    rewrite (@rfind_last _ pre _ Hn).
    replace (Z.to_nat (Z.of_nat (length pre) + 1)) with (length pre + 1) by lia.
    rewrite skipn_app, skipn_all2 by lia.
    now replace (length pre + 1 - length pre) with 1 by lia.
Qed.

(** X11.  Every output path of a batch lies directly inside the output
    directory: for every combination of the flags it is
    [os.path.join(output_dir, name)] for a file name [name] without
    separator, and [basename] gives that name back. *)
Theorem X11_batch_output_inside_output_dir
        (output_dir : pystr) (scale : nat)
        (force_tif force_mrc force_jpg keep_basename : bool)
        (input_file : pystr) :
  exists name,
    ~ In ch_sep name
    /\ directory_output output_dir scale force_tif force_mrc force_jpg
                        keep_basename input_file
       = path_join output_dir name
    /\ basename (directory_output output_dir scale force_tif force_mrc
                                  force_jpg keep_basename input_file)
       = name.
Proof.
  assert (Hgen : forall name,
            ~ In ch_sep name ->
            directory_output output_dir scale force_tif force_mrc force_jpg
                             keep_basename input_file
            = join_prefix output_dir ++ name ->
            exists name,
              ~ In ch_sep name
              /\ directory_output output_dir scale force_tif force_mrc
                                  force_jpg keep_basename input_file
                 = path_join output_dir name
              /\ basename (directory_output output_dir scale force_tif
                             force_mrc force_jpg keep_basename input_file)
                 = name).
  { intros name Hn E. exists name. split; [exact Hn|].
    rewrite E, <- (@path_join_relative output_dir name Hn).
    split; [reflexivity|now apply basename_path_join]. }
  destruct (@stem_ext_no_sep _ (basename_no_sep input_file)) as [Hs He].
  assert (Hsuf : ~ In ch_sep (pasr_suffix scale))
    by (intros H; apply pasr_suffix_plain in H; tauto).
  destruct keep_basename.
  - apply (Hgen (basename input_file)); [apply basename_no_sep|].
    apply directory_output_keep.
  - destruct (force_tif || force_mrc || force_jpg) eqn:Hf.
    + apply (Hgen (stem input_file ++ pasr_suffix scale
                   ++ forced_ext force_tif force_mrc)).
      * intros H. apply in_app_or in H as [H|H]; [now apply Hs|].
        apply in_app_or in H as [H|H]; [now apply Hsuf|].
        unfold forced_ext in H.
        destruct force_tif; [|destruct force_mrc]; cbn in H;
          intuition discriminate.
      * now apply directory_output_forced.
    + apply orb_false_iff in Hf as [Hf ->].
      apply orb_false_iff in Hf as [-> ->].
      apply (Hgen (with_suffix (pasr_suffix scale) (basename input_file))).
      * unfold with_suffix. intros H.
        apply in_app_or in H as [H|H]; [now apply Hs|].
        apply in_app_or in H as [H|H]; [now apply Hsuf|now apply He].
      * apply directory_output_plain.
Qed.

(** X12.  With [keep_basename], an entry that already lies in the output
    directory is its own output path: the batch then overwrites its inputs
    in place, whatever the force flags. *)
Theorem X12_keep_basename_in_place
        (output_dir name : pystr) (scale : nat)
        (force_tif force_mrc force_jpg : bool) :
  ~ In ch_sep name ->
  directory_output output_dir scale force_tif force_mrc force_jpg true
                   (path_join output_dir name)
  = path_join output_dir name.
Proof.
  intros Hn. rewrite directory_output_keep.
  rewrite (@basename_path_join output_dir name Hn).
  symmetry. now apply path_join_relative.
Qed.

Lemma X12_witness :
  directory_output (str "data") 3 true false false true (str "data/f.mrc")
  = str "data/f.mrc".
Proof.
  refine (@X12_keep_basename_in_place (str "data") (str "f.mrc") 3 true false
                                      false _).
  cbn. intuition discriminate.
Defined.

(** X13.  The default of the flip flag does not depend on the letter case
    of the two paths. *)
Theorem X13_auto_flip_ignores_case (input_file output_file : pystr) :
  auto_flip (lower input_file) (lower output_file)
  = auto_flip input_file output_file.
Proof.
  assert (Hc : forall c, lower_char (lower_char c) = lower_char c).
  { intros c. unfold lower_char.
    destruct ((65 <=? nat_of_ascii c) && (nat_of_ascii c <=? 90)) eqn:E;
      [|now rewrite E].
    apply andb_true_iff in E as [E1 E2].
    apply Nat.leb_le in E1, E2.
    rewrite nat_ascii_embedding by lia.
    replace ((65 <=? nat_of_ascii c + 32) && (nat_of_ascii c + 32 <=? 90))
      with false; [reflexivity|].
    symmetry. apply andb_false_iff. right. apply Nat.leb_gt. lia. }
  assert (Hl : forall s, lower (lower s) = lower s).
  { intros s. unfold lower. rewrite map_map. apply map_ext, Hc. }
  unfold auto_flip. now rewrite !Hl.
Qed.

(* ================================================================== *)
(** * Further properties of the single-file path resolver *)
(* ================================================================== *)

Lemma rfind_from_app_absent (c : ascii) (l m : pystr) (i : nat) (found : Z) :
  ~ In c m -> rfind_from c (l ++ m) i found = rfind_from c l i found.
Proof.
  intros Hm. revert i found. induction l as [|a l IH]; intros i found.
  - cbn [app rfind_from]. now apply rfind_from_absent.
  - cbn [app rfind_from]. apply IH.
Qed.

Lemma rfind_app_absent (c : ascii) (l m : pystr) :
  ~ In c m -> rfind c (l ++ m) = rfind c l.
Proof. apply rfind_from_app_absent. Qed.

Lemma rfind_bounds (c : ascii) (s : pystr) :
  (-1 <= rfind c s < Z.of_nat (length s))%Z.
Proof.
  destruct (in_dec ascii_dec c s) as [H|H].
  - destruct (split_at_last _ _ H) as (pre & post & -> & Hn).
    rewrite (@rfind_last _ pre _ Hn), length_app. cbn [length]. lia.
  - rewrite (@rfind_absent _ _ H). lia.
Qed.

Lemma rfind_present (c : ascii) (s : pystr) :
  (0 <= rfind c s)%Z -> In c s.
Proof.
  intros H. destruct (in_dec ascii_dec c s) as [Hin|Hin]; [exact Hin|].
  rewrite (@rfind_absent _ _ Hin) in H. lia.
Qed.

Lemma rfind_after (c d : ascii) (pre post : pystr) :
  In c post ->
  (Z.of_nat (length pre) < rfind c (pre ++ d :: post))%Z.
Proof.
  intros H. destruct (split_at_last _ _ H) as (a & b & -> & Hn).
  replace (pre ++ d :: a ++ c :: b) with ((pre ++ d :: a) ++ c :: b)
    by (now rewrite <- app_assoc).
  rewrite (@rfind_last _ (pre ++ d :: a) _ Hn), length_app. cbn [length]. lia.
Qed.

Lemma has_non_dot_before_prefix (p q : pystr) (i n : nat) :
  i + n <= length p ->
  has_non_dot_before (p ++ q) i n = has_non_dot_before p i n.
Proof.
  revert i. induction n as [|n IH]; intros i H; [reflexivity|].
  cbn [has_non_dot_before]. rewrite app_nth1 by lia.
  destruct (negb (Ascii.eqb (nth i p ch_dot) ch_dot)); [reflexivity|].
  apply IH. lia.
Qed.

Lemma has_non_dot_before_found (p : pystr) (i n k : nat) :
  i <= k < i + n -> nth k p ch_dot <> ch_dot ->
  has_non_dot_before p i n = true.
Proof.
  revert i. induction n as [|n IH]; intros i Hk Hc; [lia|].
  cbn [has_non_dot_before].
  destruct (Ascii.eqb (nth i p ch_dot) ch_dot) eqn:E; [|reflexivity].
  cbn [negb]. apply IH; [|exact Hc].
  destruct (Nat.eq_dec k i) as [->|Hne]; [|lia].
  apply Ascii.eqb_eq in E. contradiction.
Qed.

(** The extension found by [splitext] is empty, or a dot followed by
    characters that are neither dots nor separators. *)
Lemma splitext_ext_shape (p : pystr) :
  snd (splitext p) = []
  \/ exists pre post,
       p = pre ++ ch_dot :: post /\ ~ In ch_dot post /\ ~ In ch_sep post
       /\ splitext p = (pre, ch_dot :: post).
Proof.
  unfold splitext.
  destruct (rfind ch_dot p >? rfind ch_sep p)%Z eqn:Hgt; [|now left].
  destruct (has_non_dot_before _ _ _); [|now left].
  right. apply Z.gtb_lt in Hgt.
  pose proof (rfind_bounds ch_sep p) as Hb.
  assert (Hin : In ch_dot p) by (apply rfind_present; lia).
  destruct (split_at_last _ _ Hin) as (pre & post & -> & Hn).
  rewrite (@rfind_last _ pre _ Hn) in *.
  exists pre, post. split; [reflexivity|]. split; [exact Hn|]. split.
  - intros Hs. pose proof (@rfind_after ch_sep ch_dot pre post Hs). lia.
  - rewrite Nat2Z.id.
    rewrite firstn_app, firstn_all, Nat.sub_diag. cbn [firstn].
    rewrite app_nil_r.
    now rewrite skipn_app, skipn_all, Nat.sub_diag.
Qed.

(** A stem that ends in a plain, non-empty text, followed by a proper
    extension, is split exactly there. *)
Lemma splitext_stem_ext (b mid post : pystr) :
  mid <> [] -> ~ In ch_dot mid -> ~ In ch_sep mid ->
  ~ In ch_dot post -> ~ In ch_sep post ->
  splitext (b ++ mid ++ ch_dot :: post) = (b ++ mid, ch_dot :: post).
Proof.
  intros Hne Hd Hs Hpd Hps.
  destruct mid as [|m0 mid']; [contradiction|].
  assert (Hm0 : m0 <> ch_dot) by (intros ->; apply Hd; now left).
  unfold splitext.
  rewrite app_assoc.
  rewrite (@rfind_last ch_dot (b ++ m0 :: mid') post Hpd).
  rewrite <- app_assoc.
  assert (Hsep : rfind ch_sep (b ++ (m0 :: mid') ++ ch_dot :: post)
                 = rfind ch_sep b).
  { apply rfind_app_absent. intros H. apply in_app_or in H as [H|H];
      [now apply Hs|].
    destruct H as [H|H]; [discriminate H|now apply Hps]. }
  rewrite Hsep.
  pose proof (rfind_bounds ch_sep b) as Hb.
  rewrite length_app. cbn [length].
  replace (Z.of_nat (length b + S (length mid')) >? rfind ch_sep b)%Z
    with true by (symmetry; apply Z.gtb_lt; lia).
  rewrite (@has_non_dot_before_found _ _ _ (length b)).
  - rewrite Nat2Z.id. rewrite app_assoc.
    replace (length b + S (length mid')) with (length (b ++ m0 :: mid'))
      by (rewrite length_app; reflexivity).
    rewrite firstn_app, firstn_all, Nat.sub_diag. cbn [firstn].
    rewrite app_nil_r.
    now rewrite skipn_app, skipn_all, Nat.sub_diag.
  - lia.
  - cbn [app]. rewrite nth_middle. exact Hm0.
Qed.

(** Inserting a plain, non-empty text before the extension of a path keeps
    the place where [splitext] splits. *)
Lemma splitext_insert (p mid : pystr) :
  mid <> [] -> ~ In ch_dot mid -> ~ In ch_sep mid ->
  splitext (fst (splitext p) ++ mid ++ snd (splitext p))
  = (fst (splitext p) ++ mid, snd (splitext p)).
Proof.
  intros Hne Hd Hs.
  destruct (splitext_ext_shape p) as [He|(pre & post & -> & Hpd & Hps & E)].
  - assert (Hf : fst (splitext p) = p).
    { pose proof (splitext_app p) as H. rewrite He, app_nil_r in H. exact H. }
    rewrite Hf, He, app_nil_r.
    revert He. unfold splitext.
    rewrite (@rfind_app_absent ch_dot p mid Hd), (@rfind_app_absent ch_sep p mid Hs).
    pose proof (rfind_bounds ch_sep p) as Hbs.
    pose proof (rfind_bounds ch_dot p) as Hbd.
    destruct (rfind ch_dot p >? rfind ch_sep p)%Z eqn:Hgt; [|reflexivity].
    apply Z.gtb_lt in Hgt.
    rewrite has_non_dot_before_prefix by lia.
    destruct (has_non_dot_before p _ _); [|reflexivity].
    cbn [snd]. intros He.
    assert (Hlen : length (skipn (Z.to_nat (rfind ch_dot p)) p) = 0)
      by now rewrite He.
    rewrite length_skipn in Hlen. lia.
  - rewrite E. cbn [fst snd]. now apply splitext_stem_ext.
Qed.

Lemma replace_ext_stem (b mid post e : pystr) :
  mid <> [] -> ~ In ch_dot mid -> ~ In ch_sep mid ->
  ~ In ch_dot post -> ~ In ch_sep post ->
  replace_ext (b ++ mid ++ ch_dot :: post) e = b ++ mid ++ e.
Proof.
  intros. unfold replace_ext. rewrite splitext_stem_ext by assumption.
  cbn [fst]. now rewrite <- app_assoc.
Qed.

Lemma main_job_output_path (a : args) :
  a_output a = None -> a_keep_basename a = false ->
  let base := fst (splitext (a_input a)) in
  let ext := snd (splitext (a_input a)) in
  j_output (main_job a) = base ++ pasr_suffix (a_scale a) ++ final_ext a ext
  /\ j_output (main_job a) <> a_input a.
Proof.
  intros Ho Hk base ext.
  assert (Hne : pasr_suffix (a_scale a) <> []) by discriminate.
  assert (Hd : ~ In ch_dot (pasr_suffix (a_scale a)))
    by (intros H; apply pasr_suffix_plain in H; tauto).
  assert (Hs : ~ In ch_sep (pasr_suffix (a_scale a)))
    by (intros H; apply pasr_suffix_plain in H; tauto).
  assert (Hdef : default_output a = base ++ pasr_suffix (a_scale a) ++ ext).
  { unfold default_output. rewrite Ho, Hk.
    now rewrite (surjective_pairing (splitext (a_input a))). }
  assert (Hrep0 : forall e,
            replace_ext (base ++ pasr_suffix (a_scale a) ++ ext) e
            = base ++ pasr_suffix (a_scale a) ++ e).
  { intros e. unfold replace_ext, base, ext.
    rewrite splitext_insert by assumption. cbn [fst].
    now rewrite <- app_assoc. }
  assert (Hrep : forall post e,
            ~ In ch_dot post -> ~ In ch_sep post ->
            replace_ext (base ++ pasr_suffix (a_scale a) ++ ch_dot :: post) e
            = base ++ pasr_suffix (a_scale a) ++ e).
  { intros post e H1 H2. now apply replace_ext_stem. }
  assert (Hplain : forall s, s = "tif"%string \/ s = "mrc"%string ->
            ~ In ch_dot (str s) /\ ~ In ch_sep (str s)).
  { intros s [->| ->]; cbn; intuition discriminate. }
  destruct (Hplain "tif"%string (or_introl eq_refl)) as [Ht1 Ht2].
  destruct (Hplain "mrc"%string (or_intror eq_refl)) as [Hm1 Hm2].
  assert (Hout : j_output (main_job a)
                 = base ++ pasr_suffix (a_scale a) ++ final_ext a ext).
  { unfold main_job, force_output, final_ext. cbn [j_output]. rewrite Hdef.
    change (str ".tif") with (ch_dot :: str "tif").
    change (str ".mrc") with (ch_dot :: str "mrc").
    destruct (a_force_tif a), (a_force_mrc a), (a_force_jpg a);
      rewrite ?Hrep0, ?Hrep by assumption; reflexivity. }
  split; [exact Hout|].
  rewrite Hout. intros E.
  rewrite <- (splitext_app (a_input a)) in E. fold base ext in E.
  apply app_inv_head in E.
  assert (Hfirst : exists t, pasr_suffix (a_scale a) = "_"%char :: t)
    by (eexists; reflexivity).
  destruct Hfirst as (t & Ht). rewrite Ht in E. cbn [app] in E.
  destruct (splitext_ext_shape (a_input a)) as [He|(pre & post & _ & _ & _ & Es)].
  - fold ext in He. rewrite He in E. discriminate E.
  - unfold ext in E. rewrite Es in E. cbn [snd] in E. discriminate E.
Qed.

(** X14.  Single-file mode with no explicit output and without
    [keep_basename]: with [(base, ext) = splitext(input)], the resolved
    output path is base ++ "_PASR_{scale}x" ++ e, where e is ".jpg",
    ".mrc" or ".tif" for the last force flag that is set and [ext] when
    none is; in particular it is never the input path. *)
Theorem X14_single_file_output_path (a : args) :
  a_output a = None -> a_keep_basename a = false ->
  let base := fst (splitext (a_input a)) in
  let ext := snd (splitext (a_input a)) in
  j_output (main_job a) = base ++ pasr_suffix (a_scale a) ++ final_ext a ext
  /\ j_output (main_job a) <> a_input a.
Proof. exact (@main_job_output_path a). Qed.

Lemma X14_witness :
  j_output (main_job (mk_args (str "run.1/stack.mrcs") 4 None (str "lzw") 1 false
                              None true false true))
  = str "run.1/stack_PASR_4x.jpg".
Proof.
  destruct (@X14_single_file_output_path
              (mk_args (str "run.1/stack.mrcs") 4 None (str "lzw") 1 false
                       None true false true) eq_refl eq_refl)
    as [H _].
  rewrite H. reflexivity.
Defined.

(* ================================================================== *)
(** * Further properties of the array scaler *)
(* ================================================================== *)

Lemma div_mod_split (a b : nat) : a / b * b + a mod b = a.
Proof. pose proof (Nat.div_mod_eq a b). lia. Qed.

Lemma div_mod_small (y x w : nat) :
  x < w -> (y * w + x) / w = y /\ (y * w + x) mod w = x.
Proof.
  intros H. split.
  - symmetry. apply (Nat.div_unique _ _ _ x); lia.
  - symmetry. apply (Nat.mod_unique _ _ y); lia.
Qed.

Lemma flat_index_split (idx h w : nat) :
  idx < h * w -> idx / w < h /\ idx mod w < w.
Proof.
  intros H. assert (w <> 0) by (intros ->; lia). split.
  - apply Nat.Div0.div_lt_upper_bound. lia.
  - now apply Nat.mod_upper_bound.
Qed.

(** Sample by sample: what [scale_image] puts at each place. *)
Lemma scale_image_nth (a out : ndarray) (f h w : nat) :
  well_formed a -> arr_shape a = [h; w] -> scale_image a f = Ok out ->
  forall idx,
    nth_error (arr_data out) idx
    = if idx <? (h * f) * (w * f)
      then nth_error (arr_data a) (src_index w f idx)
      else None.
Proof.
  intros Hwf Hs Ho idx.
  destruct (@scale_image_2d a f h w Hwf Hs) as (out' & Ho' & Hos & _ & Hw & Hpix).
  rewrite Ho in Ho'. injection Ho' as <-.
  assert (Hlen : length (arr_data out) = (h * f) * (w * f)).
  { unfold well_formed in Hw. rewrite Hw, Hos. simpl. now rewrite Nat.mul_1_r. }
  destruct (idx <? h * f * (w * f)) eqn:E.
  - apply Nat.ltb_lt in E.
    destruct (@flat_index_split idx (h * f) (w * f) E) as [HY HX].
    destruct (@flat_index_split (idx / (w * f)) h f HY) as [Hy Hdy].
    destruct (@flat_index_split (idx mod (w * f)) w f HX) as [Hx Hdx].
    unfold src_index.
    rewrite <- (Hpix _ _ _ _ Hy Hx Hdy Hdx).
    now rewrite !div_mod_split.
  - apply Nat.ltb_ge in E. apply nth_error_None. lia.
Qed.

Lemma src_index_bound (idx h w f : nat) :
  idx < (h * f) * (w * f) -> src_index w f idx < h * w.
Proof.
  intros E.
  destruct (@flat_index_split idx (h * f) (w * f) E) as [HY HX].
  destruct (@flat_index_split (idx / (w * f)) h f HY) as [Hy _].
  destruct (@flat_index_split (idx mod (w * f)) w f HX) as [Hx _].
  unfold src_index. now apply index_bound.
Qed.

(** X15.  Scaling by a factor f keeps the buffer well formed, multiplies
    the number of samples by f*f and introduces no sample value: every
    sample of the result is a sample of the input.  This holds for images
    and, frame by frame, for stacks. *)
Theorem X15_scaling_adds_no_values (a : ndarray) (f : nat) :
  well_formed a -> ndim a = 2 \/ ndim a = 3 ->
  exists out,
    scale_data a f = Ok out
    /\ well_formed out
    /\ length (arr_data out) = f * f * length (arr_data a)
    /\ forall v, In v (arr_data out) -> In v (arr_data a).
Proof.
  intros Hwf [H2|H3].
  - unfold ndim in H2.
    destruct (arr_shape a) as [|h [|w [|]]] eqn:Hs; try discriminate.
    destruct (@scale_image_2d a f h w Hwf Hs) as (out & Ho & Hos & _ & Hw & _).
    exists out. split; [unfold scale_data, ndim; now rewrite Hs|].
    split; [exact Hw|]. split.
    + unfold well_formed in *. rewrite Hw, Hwf, Hos, Hs. simpl. lia.
    + intros v Hv. apply In_nth_error in Hv as (idx & Hidx).
      rewrite (@scale_image_nth a out f h w Hwf Hs Ho) in Hidx.
      destruct (idx <? _); [|discriminate]. now apply nth_error_In in Hidx.
  - destruct (ndim3_shape _ H3) as (n & h & w & Hs).
    destruct (@scale_stack_3d a f n h w Hwf Hs)
      as (out & Ho & Hos & _ & Hw & Hfr).
    exists out. split; [unfold scale_data, ndim; now rewrite Hs|].
    split; [exact Hw|].
    assert (Hlen : length (arr_data out) = n * ((h * f) * (w * f))).
    { unfold well_formed in Hw. rewrite Hw, Hos. simpl. now rewrite Nat.mul_1_r. }
    split.
    + unfold well_formed in Hwf. rewrite Hlen, Hwf, Hs. simpl. lia.
    + intros v Hv. apply In_nth_error in Hv as (idx & Hidx).
      assert (Hi : idx < n * ((h * f) * (w * f))).
      { rewrite <- Hlen. apply nth_error_Some. congruence. }
      destruct (@flat_index_split idx n ((h * f) * (w * f)) Hi) as [Hk Hr].
      destruct (@flat_index_split _ (h * f) (w * f) Hr) as [HY HX].
      destruct (@flat_index_split _ h f HY) as [Hy Hdy].
      destruct (@flat_index_split _ w f HX) as [Hx Hdx].
      pose proof (Hfr _ _ _ _ _ Hk Hy Hx Hdy Hdx) as E.
      rewrite !div_mod_split in E. rewrite E in Hidx.
      now apply nth_error_In in Hidx.
Qed.

Lemma X15_witness :
  exists out,
    scale_data (mk_ndarray UInt8 [1; 2] [3; 4]%Z) 2 = Ok out
    /\ length (arr_data out) = 8.
Proof.
  destruct (@X15_scaling_adds_no_values (mk_ndarray UInt8 [1; 2] [3; 4]%Z) 2
              eq_refl (or_introl eq_refl))
    as (out & Ho & _ & Hl & _).
  exists out. split; [exact Ho|exact Hl].
Defined.

Lemma ndarray_eq (a b : ndarray) :
  arr_dtype a = arr_dtype b -> arr_shape a = arr_shape b ->
  arr_data a = arr_data b -> a = b.
Proof. destruct a, b. cbn. now intros -> -> ->. Qed.

(** X16.  Scaling an image by f and then by g is scaling it by f*g. *)
Theorem X16_scaling_composes (a : ndarray) (f g h w : nat) :
  well_formed a -> arr_shape a = [h; w] ->
  exists mid out,
    scale_image a f = Ok mid
    /\ scale_image mid g = Ok out
    /\ scale_image a (f * g) = Ok out.
Proof.
  intros Hwf Hs.
  destruct (@scale_image_2d a f h w Hwf Hs) as (mid & Hm & Hms & Hmd & Hmw & _).
  destruct (@scale_image_2d mid g _ _ Hmw Hms) as (out & Ho & Hos & Hod & _ & _).
  destruct (@scale_image_2d a (f * g) h w Hwf Hs)
    as (out' & Ho' & Hos' & Hod' & _ & _).
  exists mid, out. split; [exact Hm|]. split; [exact Ho|].
  rewrite Ho'. f_equal. apply ndarray_eq.
  - congruence.
  - rewrite Hos, Hos'. now rewrite !Nat.mul_assoc.
  - apply nth_error_ext. intros idx.
    rewrite (@scale_image_nth a out' (f * g) h w Hwf Hs Ho').
    rewrite (@scale_image_nth mid out g _ _ Hmw Hms Ho).
    replace (h * (f * g) * (w * (f * g))) with (h * f * g * (w * f * g))
      by (now rewrite !Nat.mul_assoc).
    destruct (idx <? h * f * g * (w * f * g)) eqn:E; [|reflexivity].
    apply Nat.ltb_lt in E.
    rewrite (@scale_image_nth a mid f h w Hwf Hs Hm).
    pose proof (@src_index_bound idx (h * f) (w * f) g E) as Hb.
    apply Nat.ltb_lt in Hb as Hb'. rewrite Hb'. f_equal.
    destruct (@flat_index_split idx (h * f * g) (w * f * g) E) as [HY HX].
    destruct (@flat_index_split _ (h * f) g HY) as [Hy _].
    destruct (@flat_index_split _ (w * f) g HX) as [Hx _].
    unfold src_index.
    replace (w * (f * g)) with (w * f * g) by (symmetry; apply Nat.mul_assoc).
    destruct (@div_mod_small (idx / (w * f * g) / g)
                             ((idx mod (w * f * g)) / g) (w * f) Hx)
      as [-> ->].
    rewrite !(Nat.Div0.div_div _ g f).
    now rewrite (Nat.mul_comm g f).
Qed.

Lemma X16_witness :
  exists mid out,
    scale_image (mk_ndarray UInt8 [1; 2] [3; 4]%Z) 2 = Ok mid
    /\ scale_image mid 2 = Ok out
    /\ scale_image (mk_ndarray UInt8 [1; 2] [3; 4]%Z) 4 = Ok out.
Proof.
  exact (@X16_scaling_composes (mk_ndarray UInt8 [1; 2] [3; 4]%Z) 2 2 1 2
           eq_refl eq_refl).
Defined.

(** X17.  Scaling by 1 returns the buffer unchanged, for images and for
    stacks. *)
Theorem X17_scale_by_one_is_identity (a : ndarray) :
  well_formed a -> ndim a = 2 \/ ndim a = 3 ->
  scale_data a 1 = Ok a.
Proof.
  intros Hwf [H2|H3].
  - unfold ndim in H2.
    destruct (arr_shape a) as [|h [|w [|]]] eqn:Hs; try discriminate.
    destruct (@scale_image_2d a 1 h w Hwf Hs) as (out & Ho & Hos & Hod & Hw & _).
    unfold scale_data, ndim. rewrite Hs. cbn [length Nat.eqb]. rewrite Ho.
    f_equal. apply ndarray_eq; [exact Hod| |].
    + rewrite Hos, Hs. now rewrite !Nat.mul_1_r.
    + apply nth_error_ext. intros idx.
      rewrite (@scale_image_nth a out 1 h w Hwf Hs Ho).
      rewrite !Nat.mul_1_r.
      destruct (idx <? h * w) eqn:E.
      * unfold src_index. rewrite !Nat.mul_1_r, !Nat.div_1_r.
        now rewrite div_mod_split.
      * symmetry. apply nth_error_None. apply Nat.ltb_ge in E.
        unfold well_formed in Hwf. rewrite Hwf, Hs. simpl. lia.
  - destruct (ndim3_shape _ H3) as (n & h & w & Hs).
    destruct (@scale_stack_3d a 1 n h w Hwf Hs)
      as (out & Ho & Hos & Hod & Hw & Hfr).
    unfold scale_data, ndim. rewrite Hs. cbn [length Nat.eqb]. rewrite Ho.
    f_equal. apply ndarray_eq; [exact Hod| |].
    + rewrite Hos, Hs. now rewrite !Nat.mul_1_r.
    + assert (Hla : length (arr_data a) = n * (h * w)).
      { unfold well_formed in Hwf. rewrite Hwf, Hs. simpl. lia. }
      assert (Hlo : length (arr_data out) = n * (h * w)).
      { unfold well_formed in Hw. rewrite Hw, Hos. simpl. lia. }
      apply nth_error_ext. intros idx.
      destruct (Nat.lt_ge_cases idx (n * (h * w))) as [Hi|Hi].
      * destruct (@flat_index_split idx n (h * w) Hi) as [Hk Hr].
        destruct (@flat_index_split _ h w Hr) as [Hy Hx].
        pose proof (Hfr _ _ _ 0 0 Hk Hy Hx Nat.lt_0_1 Nat.lt_0_1) as E.
        rewrite !Nat.mul_1_r, !Nat.add_0_r, !div_mod_split in E. exact E.
      * transitivity (@None Z); [|symmetry]; apply nth_error_None; lia.
Qed.

Lemma X17_witness :
  scale_data (mk_ndarray Int16 [2; 1; 2] [1; 2; 3; 4]%Z) 1
  = Ok (mk_ndarray Int16 [2; 1; 2] [1; 2; 3; 4]%Z).
Proof.
  exact (@X17_scale_by_one_is_identity
           (mk_ndarray Int16 [2; 1; 2] [1; 2; 3; 4]%Z)
           eq_refl (or_intror eq_refl)).
Defined.

(** Sample by sample: what the stack branch puts at each place. *)
Lemma scale_stack_nth (a out : ndarray) (f n h w : nat) :
  well_formed a -> arr_shape a = [n; h; w] -> scale_stack a f = Ok out ->
  forall idx,
    nth_error (arr_data out) idx
    = if idx <? n * ((h * f) * (w * f))
      then nth_error (arr_data a)
             (idx / ((h * f) * (w * f)) * (h * w)
              + src_index w f (idx mod ((h * f) * (w * f))))
      else None.
Proof.
  intros Hwf Hs Ho idx.
  destruct (@scale_stack_3d a f n h w Hwf Hs)
    as (out' & Ho' & Hos & _ & Hw & Hfr).
  rewrite Ho in Ho'. injection Ho' as <-.
  assert (Hlen : length (arr_data out) = n * ((h * f) * (w * f))).
  { unfold well_formed in Hw. rewrite Hw, Hos. simpl. now rewrite Nat.mul_1_r. }
  destruct (idx <? _) eqn:E.
  - apply Nat.ltb_lt in E.
    destruct (@flat_index_split idx n ((h * f) * (w * f)) E) as [Hk Hr].
    destruct (@flat_index_split _ (h * f) (w * f) Hr) as [HY HX].
    destruct (@flat_index_split _ h f HY) as [Hy Hdy].
    destruct (@flat_index_split _ w f HX) as [Hx Hdx].
    pose proof (Hfr _ _ _ _ _ Hk Hy Hx Hdy Hdx) as E2.
    rewrite !div_mod_split in E2. exact E2.
  - apply Nat.ltb_ge in E. apply nth_error_None. lia.
Qed.

(** Sample by sample: what [np.flip(a, axis=0)] puts at each place, for
    [d] blocks of [m] samples. *)
Lemma flip_blocks_nth (l : list Z) (d m idx : nat) :
  length l = d * m ->
  nth_error (concat (List.rev (chunks m d l))) idx
  = if idx <? d * m
    then nth_error l ((d - 1 - idx / m) * m + idx mod m)
    else None.
Proof.
  intros Hl.
  assert (Hu : Forall (fun c => length c = m) (List.rev (chunks m d l))).
  { apply Forall_rev, chunks_uniform. lia. }
  destruct (idx <? d * m) eqn:E.
  - apply Nat.ltb_lt in E.
    destruct (@flat_index_split idx d m E) as [Hk Hr].
    rewrite <- (div_mod_split idx m) at 1.
    rewrite (nth_error_concat_uniform (idx / m) Hu Hr).
    rewrite nth_error_rev, length_chunks.
    apply Nat.ltb_lt in Hk as Hk'. rewrite Hk'.
    rewrite nth_error_chunks by lia.
    rewrite nth_error_chunk by exact Hr.
    f_equal. lia.
  - apply Nat.ltb_ge in E. apply nth_error_None.
    rewrite (length_concat_uniform Hu), length_rev, length_chunks. exact E.
Qed.

Lemma np_flip0_well_formed (a out : ndarray) :
  well_formed a -> np_flip0 a = Ok out ->
  well_formed out /\ arr_shape out = arr_shape a /\ arr_dtype out = arr_dtype a.
Proof.
  unfold np_flip0, well_formed. intros Hwf H.
  destruct (arr_shape a) as [|d rest] eqn:Hs; [discriminate|].
  injection H as <-. cbn [arr_data arr_shape arr_dtype].
  split; [|now split].
  rewrite (@length_concat_uniform _ (prod_shape rest)).
  - now rewrite length_rev, length_chunks.
  - apply Forall_rev, chunks_uniform. rewrite Hwf. reflexivity.
Qed.

Lemma flipped_row_div (h f y : nat) :
  y < h * f -> (h * f - 1 - y) / f = h - 1 - y / f.
Proof.
  intros H. destruct (@flat_index_split y h f H) as [Hq Hr].
  symmetry. apply (Nat.div_unique _ _ _ (f - 1 - y mod f)); [lia|].
  pose proof (div_mod_split y f) as E.
  assert (Hq' : (h - 1 - y / f) + 1 + y / f = h) by lia.
  nia.
Qed.

(** X18.  Flipping commutes with scaling: the flipped scaled buffer, which
    is what a flipped TIFF output holds, is the scaled flipped buffer.
    This holds for images (rows reversed) and for stacks (frame order
    reversed). *)
Theorem X18_flip_commutes_with_scaling (a : ndarray) (f : nat) :
  well_formed a -> ndim a = 2 \/ ndim a = 3 ->
  exists scaled flipped out,
    scale_data a f = Ok scaled
    /\ np_flip0 scaled = Ok out
    /\ np_flip0 a = Ok flipped
    /\ scale_data flipped f = Ok out.
Proof.
  intros Hwf Hnd.
  destruct (@scale_data_ok a f Hwf Hnd) as (scaled & Hsc & Hsw & Hsn & Hsd).
  assert (Hfa : exists flipped, np_flip0 a = Ok flipped).
  { unfold np_flip0. unfold ndim in Hnd.
    destruct (arr_shape a); [destruct Hnd; discriminate|]. eauto. }
  destruct Hfa as (flipped & Hfl).
  destruct (@np_flip0_well_formed a flipped Hwf Hfl) as (Hfw & Hfs & Hfd).
  assert (Hfn : ndim flipped = 2 \/ ndim flipped = 3)
    by (unfold ndim in *; now rewrite Hfs).
  destruct (@scale_data_ok flipped f Hfw Hfn) as (out' & Hso & How & Hon & Hod).
  assert (Hfo : exists out, np_flip0 scaled = Ok out).
  { unfold np_flip0. unfold ndim in Hsn, Hnd.
    destruct (arr_shape scaled); [|eauto].
    cbn in Hsn. rewrite <- Hsn in Hnd. destruct Hnd; discriminate. }
  destruct Hfo as (out & Hout).
  destruct (@np_flip0_well_formed scaled out Hsw Hout) as (Hw2 & Hs2 & Hd2).
  exists scaled, flipped, out. repeat split; try assumption.
  rewrite Hso. f_equal.
  destruct Hnd as [H2|H3].
  - unfold ndim in H2.
    destruct (arr_shape a) as [|h [|w [|]]] eqn:Hs; try discriminate.
    assert (Hsc' : scale_image a f = Ok scaled)
      by (unfold scale_data, ndim in Hsc; now rewrite Hs in Hsc).
    assert (Hso' : scale_image flipped f = Ok out')
      by (unfold scale_data, ndim in Hso; now rewrite Hfs in Hso).
    destruct (@scale_image_2d a f h w Hwf Hs) as (s' & Hs' & Hss & _).
    rewrite Hsc' in Hs'. injection Hs' as <-.
    destruct (@scale_image_2d flipped f h w Hfw Hfs) as (o' & Ho' & Hos & _).
    rewrite Hso' in Ho'. injection Ho' as <-.
    apply ndarray_eq; [congruence|congruence|].
    apply nth_error_ext. intros idx.
    rewrite (@scale_image_nth flipped out' f h w Hfw Hfs Hso').
    unfold np_flip0 in Hout, Hfl. rewrite Hss in Hout. rewrite Hs in Hfl.
    injection Hout as <-. injection Hfl as <-. cbn [arr_data].
    unfold well_formed in Hwf, Hsw. rewrite Hs in Hwf. rewrite Hss in Hsw.
    cbn [prod_shape fold_right] in *. rewrite !Nat.mul_1_r in *.
    rewrite (@flip_blocks_nth _ (h * f) (w * f) idx Hsw).
    destruct (idx <? h * f * (w * f)) eqn:E; [|reflexivity].
    apply Nat.ltb_lt in E.
    destruct (@flat_index_split idx (h * f) (w * f) E) as [HY HX].
    destruct (@flat_index_split _ h f HY) as [Hy _].
    destruct (@flat_index_split _ w f HX) as [Hx _].
    rewrite (@flip_blocks_nth _ h w _ Hwf).
    pose proof (@src_index_bound idx h w f E) as Hb.
    apply Nat.ltb_lt in Hb as Hb'. rewrite Hb'.
    rewrite (@scale_image_nth a scaled f h w ltac:(unfold well_formed; rewrite Hs; simpl; lia) Hs Hsc').
    assert (Hin : (h * f - 1 - idx / (w * f)) * (w * f) + idx mod (w * f)
                  < h * f * (w * f)) by (apply index_bound; lia).
    apply Nat.ltb_lt in Hin as Hin'. rewrite Hin'. f_equal.
    unfold src_index.
    destruct (@div_mod_small (h * f - 1 - idx / (w * f)) (idx mod (w * f))
                             (w * f) HX) as [-> ->].
    destruct (@div_mod_small (idx / (w * f) / f) (idx mod (w * f) / f) w Hx)
      as [-> ->].
    now rewrite (@flipped_row_div h f _ HY).
  - destruct (ndim3_shape _ H3) as (n & h & w & Hs).
    assert (Hsc' : scale_stack a f = Ok scaled)
      by (unfold scale_data, ndim in Hsc; now rewrite Hs in Hsc).
    assert (Hfs' : arr_shape flipped = [n; h; w]) by congruence.
    assert (Hso' : scale_stack flipped f = Ok out')
      by (unfold scale_data, ndim in Hso; now rewrite Hfs' in Hso).
    destruct (@scale_stack_3d a f n h w Hwf Hs) as (s' & Hs' & Hss & _).
    rewrite Hsc' in Hs'. injection Hs' as <-.
    destruct (@scale_stack_3d flipped f n h w Hfw Hfs') as (o' & Ho' & Hos & _).
    rewrite Hso' in Ho'. injection Ho' as <-.
    apply ndarray_eq; [congruence|congruence|].
    apply nth_error_ext. intros idx.
    rewrite (@scale_stack_nth flipped out' f n h w Hfw Hfs' Hso').
    unfold np_flip0 in Hout, Hfl. rewrite Hss in Hout. rewrite Hs in Hfl.
    injection Hout as <-. injection Hfl as <-. cbn [arr_data].
    assert (Hla : length (arr_data a) = n * (h * w)).
    { unfold well_formed in Hwf. rewrite Hwf, Hs. simpl. lia. }
    assert (Hls : length (arr_data scaled) = n * ((h * f) * (w * f))).
    { unfold well_formed in Hsw. rewrite Hsw, Hss. simpl. lia. }
    cbn [prod_shape fold_right]. rewrite !Nat.mul_1_r.
    rewrite (@flip_blocks_nth _ n ((h * f) * (w * f)) idx Hls).
    destruct (idx <? n * (h * f * (w * f))) eqn:E; [|reflexivity].
    apply Nat.ltb_lt in E.
    destruct (@flat_index_split idx n ((h * f) * (w * f)) E) as [Hk Hr].
    pose proof (@src_index_bound _ h w f Hr) as Hb.
    rewrite (@flip_blocks_nth _ n (h * w) _ Hla).
    assert (Hj : idx / (h * f * (w * f)) * (h * w)
                 + src_index w f (idx mod (h * f * (w * f))) < n * (h * w))
      by (now apply index_bound).
    apply Nat.ltb_lt in Hj as Hj'. rewrite Hj'.
    rewrite (@scale_stack_nth a scaled f n h w Hwf Hs Hsc').
    assert (Hin : (n - 1 - idx / (h * f * (w * f))) * (h * f * (w * f))
                  + idx mod (h * f * (w * f)) < n * (h * f * (w * f)))
      by (apply index_bound; lia).
    apply Nat.ltb_lt in Hin as Hin'. rewrite Hin'. f_equal.
    destruct (@div_mod_small (n - 1 - idx / (h * f * (w * f)))
                             (idx mod (h * f * (w * f)))
                             (h * f * (w * f)) Hr) as [-> ->].
    destruct (@div_mod_small (idx / (h * f * (w * f)))
                             (src_index w f (idx mod (h * f * (w * f))))
                             (h * w) Hb) as [-> ->].
    reflexivity.
Qed.

Lemma X18_witness :
  exists scaled flipped out,
    scale_data (mk_ndarray UInt8 [2; 1] [5; 9]%Z) 2 = Ok scaled
    /\ np_flip0 scaled = Ok out
    /\ np_flip0 (mk_ndarray UInt8 [2; 1] [5; 9]%Z) = Ok flipped
    /\ scale_data flipped 2 = Ok out.
Proof.
  exact (@X18_flip_commutes_with_scaling (mk_ndarray UInt8 [2; 1] [5; 9]%Z) 2
           eq_refl (or_introl eq_refl)).
Defined.

(* ================================================================== *)
(** * Further properties of version 1 *)
(* ================================================================== *)

(** X19.  Version 1 cannot process a single image: on a buffer of rank
    below 3 [process_stack] raises an index error while it builds the
    output shape, after the read and before any write. *)
Theorem X19_v1_rejects_single_images
        (input_file output_file : pystr) (scale : nat) (w : world) (a : ndarray) :
  endswith input_file (str ".mrc") || endswith input_file (str ".mrcs")
  || (endswith input_file (str ".tif") || endswith input_file (str ".tiff")) = true ->
  files w input_file = Some a ->
  ndim a < 3 ->
  exists w1,
    V1.process_stack input_file output_file scale w = (Raise IndexError, w1)
    /\ files w1 = files w
    /\ filter is_write (log w1) = filter is_write (log w).
Proof.
  intros Hin Hfile Hnd.
  assert (Hsc : V1.scale_stack a scale = Raise IndexError).
  { unfold V1.scale_stack, shape_at. unfold ndim in Hnd.
    destruct (arr_shape a) as [|d0 [|d1 [|d2 rest]]]; cbn in *;
      try reflexivity. lia. }
  assert (Hlog : forall e, is_write e = false ->
            filter is_write (log w ++ [e]) = filter is_write (log w)).
  { intros e He. rewrite filter_app. cbn [filter]. rewrite He.
    apply app_nil_r. }
  unfold V1.process_stack, bind, lift.
  destruct (endswith input_file (str ".mrc") || endswith input_file (str ".mrcs")).
  - rewrite mrc_read_run, Hfile, Hsc. eexists. split; [reflexivity|].
    split; [reflexivity|]. now apply Hlog.
  - cbn [orb] in Hin. rewrite Hin, imread_run, Hfile, Hsc.
    eexists. split; [reflexivity|]. split; [reflexivity|]. now apply Hlog.
Qed.

Lemma X19_witness :
  fst (V1.process_stack (str "in/a.tif") (str "out/a.tif") 2 batch_world)
  = Raise IndexError.
Proof.
  destruct (@X19_v1_rejects_single_images
              (str "in/a.tif") (str "out/a.tif") 2 batch_world
              (mk_ndarray UInt8 [1; 1] [7]%Z) eq_refl eq_refl ltac:(cbn; lia))
    as (w1 & H & _).
  now rewrite H.
Defined.

(** X20.  Version 1 resolves the output path exactly as version 2 does for
    the same command line.  With no explicit output it is
    base ++ "_PASR_{scale}x" ++ e, where [(base, ext) = splitext(input)]
    and e is ".mrc" under [force_mrc], else ".tif" under [force_tif], else
    [ext]; it is never the input path. *)
Theorem X20_v1_output_path (a : v1_args) (n_cores : nat) :
  v1_main_output a = j_output (main_job (v2_of_v1 a n_cores))
  /\ (v1_output a = None ->
      let base := fst (splitext (v1_input a)) in
      let ext := snd (splitext (v1_input a)) in
      v1_main_output a
      = base ++ pasr_suffix (v1_scale a)
        ++ (if v1_force_mrc a then str ".mrc"
            else if v1_force_tif a then str ".tif" else ext)
      /\ v1_main_output a <> v1_input a).
Proof.
  assert (E : v1_main_output a = j_output (main_job (v2_of_v1 a n_cores))).
  { unfold v1_main_output, main_job, force_output, default_output, v2_of_v1.
    cbn [j_output a_output a_input a_scale a_keep_basename a_force_tif
         a_force_mrc a_force_jpg].
    destruct (v1_output a); [reflexivity|].
    now destruct (splitext (v1_input a)). }
  split; [exact E|]. intros Ho. cbn zeta.
  destruct (@main_job_output_path (v2_of_v1 a n_cores) Ho eq_refl)
    as [H1 H2].
  rewrite E. split; [|exact H2].
  rewrite H1. unfold final_ext, v2_of_v1.
  cbn [a_input a_scale a_force_jpg a_force_mrc a_force_tif]. reflexivity.
Qed.

Lemma X20_witness :
  v1_main_output (mk_v1_args (str "stack.mrc") 2 None true false)
  = str "stack_PASR_2x.tif".
Proof.
  destruct (@X20_v1_output_path (mk_v1_args (str "stack.mrc") 2 None true false) 1)
    as [_ H].
  destruct (H eq_refl) as [H1 _]. rewrite H1. reflexivity.
Defined.

(** X21.  In a batch without [keep_basename] and with a force flag set,
    the output path depends on an entry only through its file name without
    extension: two entries with the same stem get the same output path, so
    the later job overwrites the earlier one's output. *)
Theorem X21_forced_outputs_collide_on_equal_stems
        (output_dir : pystr) (scale : nat)
        (force_tif force_mrc force_jpg : bool) (f1 f2 : pystr) :
  force_tif || force_mrc || force_jpg = true ->
  stem f1 = stem f2 ->
  directory_output output_dir scale force_tif force_mrc force_jpg false f1
  = directory_output output_dir scale force_tif force_mrc force_jpg false f2.
Proof.
  intros Hf Hs.
  rewrite !directory_output_forced by exact Hf. now rewrite Hs.
Qed.

Lemma X21_witness :
  directory_output (str "out") 2 false true false false (str "in/a.tif")
  = directory_output (str "out") 2 false true false false (str "in/a.tiff").
Proof.
  exact (@X21_forced_outputs_collide_on_equal_stems
           (str "out") 2 false true false (str "in/a.tif") (str "in/a.tiff")
           eq_refl eq_refl).
Defined.
